(** * fuel-ts-hasher: the byte encoder and the incremental Hasher

    A shallow embedding of the two source files of the repository:
    [src/index.ts] (module [Index]: unknown enum variants fall back to a
    table and a string hash) and its sibling with an explicit enum context
    (module [Strict]: unknown variants are an error).

    JavaScript values are modelled as a finite tree type [value]; thrown
    exceptions as the [Throw] case of [result]; the mutable arrays and
    Hasher instances live in an explicit heap. *)

From Stdlib Require Import ZArith List String Ascii Lia.
From stdpp Require Import base gmap list.
Import ListNotations.
Local Open Scope Z_scope.
Set Warnings "-register-all".

(** ** Exceptions and the result of a call *)

(** A JavaScript string: its sequence of UTF-16 code units. *)
Abbreviation jsstring := (list Z).

(** A [Uint8Array]: its sequence of elements, each in [0, 256). *)
Abbreviation bytes := (list Z).

(** The code units of an ASCII literal. *)
Definition js (s : string) : jsstring :=
  map (fun a => Z.of_N (N_of_ascii a)) (list_ascii_of_string s).

Inductive exn :=
| SyntaxError
| TypeError
| RangeError
| CannotEncode (type : jsstring)
| VariantNotFound (variantName : jsstring).

Inductive result (A : Type) :=
| Ok (a : A)
| Throw (e : exn).
Arguments Ok {A} a.
Arguments Throw {A} e.

Definition bind {A B} (m : result A) (k : A -> result B) : result B :=
  match m with
  | Ok a => k a
  | Throw e => Throw e
  end.

Notation "'let*' x ':=' m 'in' k" := (bind m (fun x => k))
  (at level 10, x name, m at level 100, k at level 200).

(** [xs.map(f)] where [f] may throw: the calls run in order and the first
    exception ends the loop. *)
Fixpoint sequence {A} (rs : list (result A)) : result (list A) :=
  match rs with
  | [] => Ok []
  | r :: rest =>
      let* a := r in
      let* others := sequence rest in
      Ok (a :: others)
  end.

(** ** Built-ins of the platform *)

Module JS.

(** *** Character classes *)

(** [\d] in a regular expression without the unicode flag. *)
Definition is_digit (c : Z) : bool := (0x30 <=? c) && (c <=? 0x39).

(** [[A-Z]]. *)
Definition is_upper (c : Z) : bool := (0x41 <=? c) && (c <=? 0x5A).

(** StrWhiteSpaceChar of ECMA-262: WhiteSpace and LineTerminator. *)
Definition is_white_space (c : Z) : bool :=
  (c =? 0x09) || (c =? 0x0A) || (c =? 0x0B) || (c =? 0x0C) || (c =? 0x0D)
  || (c =? 0x20) || (c =? 0xA0) || (c =? 0x1680)
  || ((0x2000 <=? c) && (c <=? 0x200A))
  || (c =? 0x2028) || (c =? 0x2029) || (c =? 0x202F) || (c =? 0x205F)
  || (c =? 0x3000) || (c =? 0xFEFF).

(** The value of a digit or letter in radices up to 36. *)
Definition digit_val (c : Z) : option Z :=
  if (0x30 <=? c) && (c <=? 0x39) then Some (c - 0x30)
  else if (0x61 <=? c) && (c <=? 0x7A) then Some (c - 0x61 + 10)
  else if (0x41 <=? c) && (c <=? 0x5A) then Some (c - 0x41 + 10)
  else None.

Definition radix_digit (R c : Z) : option Z :=
  match digit_val c with
  | Some d => if d <? R then Some d else None
  | None => None
  end.

Definition is_radix_digit (R c : Z) : bool :=
  match radix_digit R c with Some _ => true | None => false end.

(** *** String methods *)

Fixpoint drop_while {A} (p : A -> bool) (l : list A) : list A :=
  match l with
  | [] => []
  | x :: rest => if p x then drop_while p rest else l
  end.

Fixpoint take_while {A} (p : A -> bool) (l : list A) : list A :=
  match l with
  | [] => []
  | x :: rest => if p x then x :: take_while p rest else []
  end.

(** [s.startsWith(p)]. *)
Fixpoint startsWith (s p : jsstring) : bool :=
  match p, s with
  | [], _ => true
  | _ :: _, [] => false
  | c :: p', d :: s' => (c =? d) && startsWith s' p'
  end.

(** [s.slice(start)] for [start] within the string. *)
Definition slice (s : jsstring) (start : nat) : jsstring := skipn start s.

(** [s.substr(start, len)] for a non-negative [start]. *)
Definition substr (s : jsstring) (start len : nat) : jsstring :=
  firstn len (skipn start s).

(** [/^\d+$/.test(s)]: one or more digits and nothing else. *)
Definition test_digits (s : jsstring) : bool :=
  match s with
  | [] => false
  | _ => forallb is_digit s
  end.

(** [/^[A-Z]/.test(s)]. *)
Definition test_upper_start (s : jsstring) : bool :=
  match s with
  | [] => false
  | c :: _ => is_upper c
  end.

(** *** Integers and their decimal strings *)

(** The decimal digits of a non-negative integer, most significant first. *)
Fixpoint digits_fuel (fuel : nat) (n : Z) : jsstring :=
  match fuel with
  | O => []
  | S f =>
      if n <? 10 then [0x30 + n]
      else digits_fuel f (n / 10) ++ [0x30 + n mod 10]
  end.

Definition decimal (n : Z) : jsstring :=
  digits_fuel (S (Z.to_nat (Z.log2 n))) n.

(** The number of decimal digits of a positive integer. *)
Definition num_digits (n : Z) : Z := Z.of_nat (length (decimal n)).

(** [BigInt.prototype.toString()]. *)
Definition BigInt_toString (z : Z) : jsstring :=
  if z <? 0 then js "-" ++ decimal (- z) else decimal z.

(** The digits of [s] in radix [R], read from the left into [acc];
    [None] when a code unit is not a digit of the radix. *)
Fixpoint parse_digits (R acc : Z) (s : jsstring) : option Z :=
  match s with
  | [] => Some acc
  | c :: rest =>
      match radix_digit R c with
      | Some d => parse_digits R (acc * R + d) rest
      | None => None
      end
  end.

Definition parse_nonempty (R : Z) (s : jsstring) : option Z :=
  match s with
  | [] => None
  | _ => parse_digits R 0 s
  end.

Definition trim (s : jsstring) : jsstring :=
  rev (drop_while is_white_space (rev (drop_while is_white_space s))).

(** StringToBigInt of ECMA-262: white space is trimmed; the empty string is
    zero; a decimal literal may carry a sign; [0x], [0o] and [0b] literals
    may not. [None] is the spec's [undefined]. *)
Definition StringToBigInt (s : jsstring) : option Z :=
  match trim s with
  | [] => Some 0
  | c :: rest =>
      if c =? 0x2B then parse_nonempty 10 rest
      else if c =? 0x2D then option_map Z.opp (parse_nonempty 10 rest)
      else
        match rest with
        | p :: body =>
            if (c =? 0x30) && ((p =? 0x78) || (p =? 0x58)) then parse_nonempty 16 body
            else if (c =? 0x30) && ((p =? 0x6F) || (p =? 0x4F)) then parse_nonempty 8 body
            else if (c =? 0x30) && ((p =? 0x62) || (p =? 0x42)) then parse_nonempty 2 body
            else parse_nonempty 10 (c :: rest)
        | [] => parse_nonempty 10 (c :: rest)
        end
  end.

(** [BigInt(s)] on a string argument: a SyntaxError when the string is not
    an integer literal. *)
Definition BigInt (s : jsstring) : result Z :=
  match StringToBigInt s with
  | Some z => Ok z
  | None => Throw SyntaxError
  end.

(** [parseInt(s, R)] for a radix [R] that is [0] or in [[2, 36]]. [None] is
    [NaN]. The result is the exact integer: the call sites pass two code
    units, where no rounding to a double takes place. *)
Definition parseInt (s : jsstring) (R : Z) : option Z :=
  let S1 := drop_while is_white_space s in
  let '(sign, S2) :=
    match S1 with
    | c :: rest =>
        if c =? 0x2D then (-1, rest)
        else if c =? 0x2B then (1, rest)
        else (1, S1)
    | [] => (1, S1)
    end in
  let stripPrefix := (R =? 0) || (R =? 16) in
  let R' := if R =? 0 then 10 else R in
  let S3 :=
    match S2 with
    | c1 :: c2 :: rest =>
        if stripPrefix && (c1 =? 0x30) && ((c2 =? 0x78) || (c2 =? 0x58))
        then rest else S2
    | _ => S2
    end in
  let R'' :=
    match S2 with
    | c1 :: c2 :: rest =>
        if stripPrefix && (c1 =? 0x30) && ((c2 =? 0x78) || (c2 =? 0x58))
        then 16 else R'
    | _ => R'
    end in
  match take_while (is_radix_digit R'') S3 with
  | [] => None
  | ds =>
      match parse_digits R'' 0 ds with
      | Some v => Some (sign * v)
      | None => None
      end
  end.

(** *** Typed arrays *)

(** ToUint8 on the result of [parseInt] or on an integer Number: [NaN]
    becomes [0], an integer is reduced modulo 256. *)
Definition ToUint8 (x : option Z) : Z :=
  match x with
  | Some z => z mod 256
  | None => 0
  end.

(** [new Uint8Array(n)]: [n] zero bytes. *)
Definition Uint8Array_new (n : nat) : bytes := repeat 0 n.

(** [target.set(source, offset)]: a RangeError when the source does not fit. *)
Definition Uint8Array_set (target source : bytes) (offset : nat) : result bytes :=
  if (offset + length source <=? length target)%nat
  then Ok (firstn offset target ++ source
           ++ skipn (offset + length source) target)
  else Throw RangeError.

(** [new DataView(new ArrayBuffer(8)).setBigUint64(0, v, false)]: the eight
    bytes of ToBigUint64(v), that is [v] modulo 2^64, most significant
    first. *)
Definition setBigUint64_be (v : Z) : bytes :=
  let u := v mod 2 ^ 64 in
  map (fun shift => Z.land (Z.shiftr u shift) 0xFF)
      [56; 48; 40; 32; 24; 16; 8; 0].

(** *** TextEncoder *)

Definition is_high_surrogate (c : Z) : bool := (0xD800 <=? c) && (c <=? 0xDBFF).
Definition is_low_surrogate (c : Z) : bool := (0xDC00 <=? c) && (c <=? 0xDFFF).

(** The UTF-8 bytes of one code point. *)
Definition utf8_code_point (cp : Z) : bytes :=
  if cp <? 0x80 then [cp]
  else if cp <? 0x800 then
    [Z.lor 0xC0 (Z.shiftr cp 6); Z.lor 0x80 (Z.land cp 0x3F)]
  else if cp <? 0x10000 then
    [Z.lor 0xE0 (Z.shiftr cp 12);
     Z.lor 0x80 (Z.land (Z.shiftr cp 6) 0x3F);
     Z.lor 0x80 (Z.land cp 0x3F)]
  else
    [Z.lor 0xF0 (Z.shiftr cp 18);
     Z.lor 0x80 (Z.land (Z.shiftr cp 12) 0x3F);
     Z.lor 0x80 (Z.land (Z.shiftr cp 6) 0x3F);
     Z.lor 0x80 (Z.land cp 0x3F)].

(** [new TextEncoder().encode(s)]: surrogate pairs are joined, a lone
    surrogate becomes U+FFFD, and every code point is written in UTF-8;
    nothing is put before or after. *)
Fixpoint TextEncoder_encode (s : jsstring) : bytes :=
  match s with
  | [] => []
  | c :: rest =>
      if is_high_surrogate c then
        match rest with
        | d :: rest' =>
            if is_low_surrogate d
            then utf8_code_point (0x10000 + (c - 0xD800) * 0x400 + (d - 0xDC00))
                 ++ TextEncoder_encode rest'
            else utf8_code_point 0xFFFD ++ TextEncoder_encode rest
        | [] => utf8_code_point 0xFFFD
        end
      else if is_low_surrogate c then
        utf8_code_point 0xFFFD ++ TextEncoder_encode rest
      else utf8_code_point c ++ TextEncoder_encode rest
  end.

End JS.

(** ** Numbers *)

(** A Number is held as [Number.prototype.toString] sees it (ECMA-262,
    Number::toString, radix 10): not-a-number, an infinity, or a sign and
    the decimal pair [(s, n)]: [s] is the significand written with as few
    digits [k] as read back to the same double (no trailing zero; [0] for
    both zeros) and the double is the one nearest to [s * 10^(n - k)].
    Up to 2^53 that product is the double's own value. *)
Inductive number :=
| NaN
| Infinity (negative : bool)
| Finite (negative : bool) (s : Z) (n : Z).

Module Number.

(** The integer [z] as a Number: trailing zeros of the decimal expansion
    leave the significand. *)
Fixpoint strip_zeros (fuel : nat) (s : Z) : Z :=
  match fuel with
  | O => s
  | S f => if (s mod 10 =? 0) && negb (s =? 0) then strip_zeros f (s / 10) else s
  end.

Definition of_Z (z : Z) : number :=
  let a := Z.abs z in
  Finite (z <? 0) (strip_zeros (length (JS.decimal a)) a) (JS.num_digits a).

(** The value of an integral finite Number whose decimal pair is exact. *)
Definition decimal_value (negative : bool) (s n : Z) : Z :=
  let v := s * 10 ^ (n - JS.num_digits s) in
  if negative then - v else v.

(** [Number.isInteger(x)]. *)
Definition isInteger (x : number) : bool :=
  match x with
  | Finite _ s n => (s =? 0) || (JS.num_digits s <=? n)
  | _ => false
  end.

(** The exponent part of the scientific form: [e+21], [e-7]. *)
Definition exponent_part (e : Z) : jsstring :=
  js "e" ++ (if e <? 0 then js "-" else js "+") ++ JS.decimal (Z.abs e).

(** [x.toString()], steps 5 to 10 of Number::toString for a positive
    finite Number with decimal pair [(s, n)]. *)
Definition toString_positive (s n : Z) : jsstring :=
  let ds := JS.decimal s in
  let k := Z.of_nat (length ds) in
  if (k <=? n) && (n <=? 21) then
    ds ++ repeat 0x30 (Z.to_nat (n - k))
  else if (0 <? n) && (n <=? 21) then
    firstn (Z.to_nat n) ds ++ js "." ++ skipn (Z.to_nat n) ds
  else if (-6 <? n) && (n <=? 0) then
    js "0." ++ repeat 0x30 (Z.to_nat (- n)) ++ ds
  else if k =? 1 then
    ds ++ exponent_part (n - 1)
  else
    firstn 1 ds ++ js "." ++ skipn 1 ds ++ exponent_part (n - 1).

(** [x.toString()]. *)
Definition toString (x : number) : jsstring :=
  match x with
  | NaN => js "NaN"
  | Infinity negative => (if negative then js "-" else []) ++ js "Infinity"
  | Finite negative s n =>
      if s =? 0 then js "0"
      else (if negative then js "-" else []) ++ toString_positive s n
  end.

End Number.

(** ** Values *)

(** The values the encoder can be handed. An array is its elements in
    order. An object is its own enumerable string-keyed properties in the
    order [Object.keys] lists them, together with what [input.toString]
    is: [Some str] when it is a function, [str] being what the call
    returns; [None] when it is not a function. Values are finite trees:
    cyclic objects are outside the model. *)
Inductive value :=
| VUndefined
| VNull
| VBoolean (b : bool)
| VNumber (x : number)
| VBigInt (z : Z)
| VString (s : jsstring)
| VSymbol
| VFunction (source : jsstring)
| VArray (elements : list value)
| VObject (toString : option jsstring) (fields : list (jsstring * value)).

(** An object literal: [toString] is inherited from [Object.prototype]. *)
Definition plain (fields : list (jsstring * value)) : value :=
  VObject (Some (js "[object Object]")) fields.

(** [typeof v]. *)
Definition typeof (v : value) : jsstring :=
  match v with
  | VUndefined => js "undefined"
  | VNull => js "object"
  | VBoolean _ => js "boolean"
  | VNumber _ => js "number"
  | VBigInt _ => js "bigint"
  | VString _ => js "string"
  | VSymbol => js "symbol"
  | VFunction _ => js "function"
  | VArray _ => js "object"
  | VObject _ _ => js "object"
  end.

(** [xs.join(sep)] on the strings of the elements. *)
Fixpoint join (sep : jsstring) (parts : list jsstring) : jsstring :=
  match parts with
  | [] => []
  | [p] => p
  | p :: rest => p ++ sep ++ join sep rest
  end.

(** ToString of ECMA-262. A Symbol cannot be converted; an object is
    converted by its [toString] method and not at all when it has none
    that returns a primitive; an array by [Array.prototype.join], which
    writes [null] and [undefined] elements as the empty string. *)
Fixpoint ToString (v : value) : result jsstring :=
  match v with
  | VUndefined => Ok (js "undefined")
  | VNull => Ok (js "null")
  | VBoolean b => Ok (if b then js "true" else js "false")
  | VNumber x => Ok (Number.toString x)
  | VBigInt z => Ok (JS.BigInt_toString z)
  | VString s => Ok s
  | VSymbol => Throw TypeError
  | VFunction source => Ok source
  | VArray elements =>
      let* parts :=
        sequence (map (fun e =>
                         match e with
                         | VUndefined | VNull => Ok []
                         | _ => ToString e
                         end) elements) in
      Ok (join (js ",") parts)
  | VObject (Some str) _ => Ok str
  | VObject None _ => Throw TypeError
  end.

(** [input.toString()] on an array. *)
Definition Array_toString (elements : list value) : result jsstring :=
  ToString (VArray elements).

(** [fields[key]] on the own properties. *)
Fixpoint get {A} (key : jsstring) (fields : list (jsstring * A)) : option A :=
  match fields with
  | [] => None
  | (k, v) :: rest => if decide (k = key) then Some v else get key rest
  end.

(** The loop both files repeat wherever chunks are joined:
    [totalSize = chunks.reduce((sum, b) => sum + b.length, 0)], a zeroed
    [Uint8Array(totalSize)], and [result.set(b, offset)] for each chunk
    with [offset] advanced by its length. *)
Definition copyChunks (chunks : list bytes) : result bytes :=
  let totalSize := fold_left (fun sum b => (sum + length b)%nat) chunks 0%nat in
  let result0 := JS.Uint8Array_new totalSize in
  let* final :=
    fold_left
      (fun state b =>
         let* st := state in
         let '(result, offset) := st in
         let* result' := JS.Uint8Array_set result b offset in
         Ok (result', (offset + length b)%nat))
      chunks (Ok (result0, 0%nat)) in
  Ok (fst final).

(** The number branch and the BN branch of both files:
    [view.setBigUint64(0, BigInt(str), false)] on a fresh 8-byte buffer. *)
Definition encodeU64 (str : jsstring) : result bytes :=
  let* v := JS.BigInt str in
  Ok (JS.setBigUint64_be v).

(** The b256 branch of both files: byte [i] is
    [parseInt(hexStr.substr(i * 2, 2), 16)] stored into a [Uint8Array]. *)
Definition decodeB256 (input : jsstring) : bytes :=
  let hexStr := JS.slice input 2 in
  map (fun i => JS.ToUint8 (JS.parseInt (JS.substr hexStr (i * 2) 2) 16))
      (seq 0 32).

(** The test of the BN branch of both files on an object:
    [typeof input.toString === "function"] and [/^\d+$/] matches
    [input.toString()]. *)
Definition bn_digits (toString : option jsstring) : option jsstring :=
  match toString with
  | Some str => if JS.test_digits str then Some str else None
  | None => None
  end.

(** The string branch of both files. *)
Definition encodeString (input : jsstring) : bytes :=
  if JS.startsWith input (js "0x") && (length input =? 66)%nat
  then decodeB256 input
  else JS.TextEncoder_encode input.

(** ** The heap: arrays of chunks and class instances *)

Abbreviation loc := positive.

(** [arrays] holds the JavaScript arrays a Hasher's [buffer] field can
    point to; [instances] the Hasher objects, [I] being their fields. The
    chunks themselves are never written after they are made and are held
    by value. *)
Record heap (I : Type) := Heap {
  arrays : gmap loc (list bytes);
  instances : gmap loc I
}.
Arguments Heap {I} arrays instances.
Arguments arrays {I} h.
Arguments instances {I} h.

(** A method body: it reads and writes the heap and returns or throws. *)
Definition M (I A : Type) : Type := heap I -> result A * heap I.

Definition ret {I A} (a : A) : M I A := fun h => (Ok a, h).

Definition bindM {I A B} (m : M I A) (k : A -> M I B) : M I B :=
  fun h =>
    match m h with
    | (Ok a, h') => k a h'
    | (Throw e, h') => (Throw e, h')
    end.

Notation "'let!' x ':=' m 'in' k" := (bindM m (fun x => k))
  (at level 10, x name, m at level 100, k at level 200).

(** A pure call inside a method. *)
Definition lift {I A} (r : result A) : M I A := fun h => (r, h).

(** An array literal or a spread copy: a new array. *)
Definition alloc_array {I} (chunks : list bytes) : M I loc :=
  fun h =>
    let l := fresh (dom (arrays h)) in
    (Ok l, Heap (<[l := chunks]> (arrays h)) (instances h)).

Definition load_array {I} (l : loc) : M I (list bytes) :=
  fun h =>
    match arrays h !! l with
    | Some chunks => (Ok chunks, h)
    | None => (Throw TypeError, h)
    end.

(** [array.push(chunk)]. *)
Definition push {I} (l : loc) (chunk : bytes) : M I unit :=
  fun h =>
    match arrays h !! l with
    | Some chunks =>
        (Ok tt, Heap (<[l := chunks ++ [chunk]]> (arrays h)) (instances h))
    | None => (Throw TypeError, h)
    end.

(** [new C(...)]: a new instance with the given fields. *)
Definition alloc_instance {I} (fields : I) : M I loc :=
  fun h =>
    let l := fresh (dom (instances h)) in
    (Ok l, Heap (arrays h) (<[l := fields]> (instances h))).

Definition load_instance {I} (l : loc) : M I I :=
  fun h =>
    match instances h !! l with
    | Some fields => (Ok fields, h)
    | None => (Throw TypeError, h)
    end.

(** An assignment to a field of [this]. *)
Definition store_instance {I} (l : loc) (fields : I) : M I unit :=
  fun h =>
    match instances h !! l with
    | Some _ => (Ok tt, Heap (arrays h) (<[l := fields]> (instances h)))
    | None => (Throw TypeError, h)
    end.

(** ** [src/index.ts] *)

Module Index.

(** [knownVariants]. *)
Definition knownVariants : list (jsstring * Z) :=
  [ (js "Activate", 0); (js "SendFleet", 1);
    (js "Eventual", 0); (js "Known", 1);
    (js "Address", 0); (js "ContractId", 1) ].

(** The names an object literal inherits from [Object.prototype]; [in]
    finds them as well, and the members they name are not numbers. *)
Definition Object_prototype_names : list jsstring :=
  [ js "constructor"; js "hasOwnProperty"; js "isPrototypeOf";
    js "propertyIsEnumerable"; js "toLocaleString"; js "toString";
    js "valueOf"; js "__proto__"; js "__defineGetter__";
    js "__defineSetter__"; js "__lookupGetter__"; js "__lookupSetter__" ].

(** ToInt32: the result of [<<] and [&]. *)
Definition ToInt32 (z : Z) : Z := (z + 2 ^ 31) mod 2 ^ 32 - 2 ^ 31.

(** One round of the fallback loop:
    [hash = (hash << 5) - hash + char; hash = hash & hash]. *)
Definition hash_step (hash char : Z) : Z :=
  let hash1 := ToInt32 (Z.shiftl (ToInt32 hash) 5) - hash + char in
  ToInt32 hash1.

(** [getEnumDiscriminant(variantName)]. [None] is a return value that is
    not a number: the member of [Object.prototype] that
    [knownVariants[variantName]] reads when the name is inherited. *)
Definition getEnumDiscriminant (variantName : jsstring) : option Z :=
  match get variantName knownVariants with
  | Some index => Some index
  | None =>
      if bool_decide (variantName ∈ Object_prototype_names) then None
      else
        let hash := fold_left hash_step variantName 0 in
        Some (Z.abs hash mod 256)
  end.

(** [encodeInputAsBytes(input)]. The tests run in the order of the source:
    null and undefined, string, number and bigint, boolean, an object whose
    [toString()] is all digits, array, object with an [elements] array,
    enum, struct. [encoded] holds, next to each field, the result of the
    recursive call on its value; a branch reads the results of the calls
    the source makes there and no others. *)
Fixpoint encodeInputAsBytes (input : value) : result bytes :=
  match input with
  | VNull | VUndefined => Ok (JS.Uint8Array_new 0)
  | VString s => Ok (encodeString s)
  | VNumber x => encodeU64 (Number.toString x)
  | VBigInt z => encodeU64 (JS.BigInt_toString z)
  | VBoolean b => Ok [if b then 1 else 0]
  | VArray elements =>
      let* str := Array_toString elements in
      if JS.test_digits str then encodeU64 str
      else
        let* elementBytes := sequence (map encodeInputAsBytes elements) in
        copyChunks elementBytes
  | VObject toString fields =>
      let encoded := map (fun kv => (fst kv, (snd kv, encodeInputAsBytes (snd kv)))) fields in
      match bn_digits toString with
      | Some str => encodeU64 str
      | None =>
          match get (js "elements") encoded with
          | Some (VArray _, of_elements) => of_elements
          | _ =>
              let keys := map fst fields in
              let enumKeys := List.filter JS.test_upper_start keys in
              match enumKeys, keys with
              | [variantName], [_] =>
                  let discriminant := getEnumDiscriminant variantName in
                  let discriminantByte := [JS.ToUint8 discriminant] in
                  let* valueBytes :=
                    match get variantName encoded with
                    | Some (_, of_value) => of_value
                    | None => Ok (JS.Uint8Array_new 0)
                    end in
                  let result0 :=
                    JS.Uint8Array_new (length discriminantByte + length valueBytes) in
                  let* result1 := JS.Uint8Array_set result0 discriminantByte 0 in
                  JS.Uint8Array_set result1 valueBytes (length discriminantByte)
              | _, _ =>
                  let* fieldBytes := sequence (map (fun e => snd (snd e)) encoded) in
                  copyChunks fieldBytes
              end
          end
      end
  | VSymbol | VFunction _ => Throw (CannotEncode (typeof input))
  end.

(** [encodeMultipleInputs(...args)]. *)
Definition encodeMultipleInputs (args : list value) : result bytes :=
  let* argBytes := sequence (map encodeInputAsBytes args) in
  copyChunks argBytes.

(** *** [class Hasher] *)

Record HasherFields := { buffer : loc }.

Section Hasher.

(** [sha256] of the [fuels] package. *)
Variable sha256 : bytes -> jsstring.

(** [new Hasher()]. *)
Definition new_Hasher : M HasherFields loc :=
  let! b := alloc_array [] in
  alloc_instance {| buffer := b |}.

(** [this.update(input)]. *)
Definition update (this : loc) (input : value) : M HasherFields loc :=
  let! bytes := lift (encodeInputAsBytes input) in
  let! fields := load_instance this in
  let! _ := push (buffer fields) bytes in
  ret this.

(** [this.getBytes()]. *)
Definition getBytes (this : loc) : M HasherFields bytes :=
  let! fields := load_instance this in
  let! chunks := load_array (buffer fields) in
  lift (copyChunks chunks).

(** [this.digest()]. *)
Definition digest (this : loc) : M HasherFields jsstring :=
  let! fields := load_instance this in
  let! chunks := load_array (buffer fields) in
  let! combined := lift (copyChunks chunks) in
  ret (sha256 combined).

(** [this.reset()]. *)
Definition reset (this : loc) : M HasherFields loc :=
  let! b := alloc_array [] in
  let! _ := store_instance this {| buffer := b |} in
  ret this.

(** [this.clone()]. *)
Definition clone (this : loc) : M HasherFields loc :=
  let! newHasher := new_Hasher in
  let! fields := load_instance this in
  let! chunks := load_array (buffer fields) in
  let! copy := alloc_array chunks in
  let! _ := store_instance newHasher {| buffer := copy |} in
  ret newHasher.

End Hasher.

End Index.

(** ** The sibling file with an enum context *)

(** [{ [enumName: string]: string[] }]: the entries in the order
    [Object.entries] lists them. *)
Abbreviation context := (list (jsstring * list jsstring)).

Module Strict.

(** [variants.includes(variantName)]. *)
Definition includes (variants : list jsstring) (variantName : jsstring) : bool :=
  existsb (fun v => bool_decide (v = variantName)) variants.

(** [variants.indexOf(variantName)], counted from [i]. *)
Fixpoint indexOf_from (i : Z) (variants : list jsstring) (variantName : jsstring) : Z :=
  match variants with
  | [] => -1
  | v :: rest =>
      if bool_decide (v = variantName) then i
      else indexOf_from (i + 1) rest variantName
  end.

Definition indexOf (variants : list jsstring) (variantName : jsstring) : Z :=
  indexOf_from 0 variants variantName.

(** The loop over [Object.entries(enumContext)]: the first entry whose
    list includes the name gives the discriminant; [None] is
    [enumFound === false]. *)
Fixpoint findVariant (entries : context) (variantName : jsstring) : option Z :=
  match entries with
  | [] => None
  | (enumName, variants) :: rest =>
      if includes variants variantName
      then Some (indexOf variants variantName)
      else findVariant rest variantName
  end.

(** [encodeInputAsBytes(input, enumContext)]: the tests of [src/index.ts]
    in the same order; the enum branch looks the key up in the context
    before it encodes the inner value, and throws when it is not found. *)
Fixpoint encodeInputAsBytes (enumContext : option context) (input : value)
  {struct input} : result bytes :=
  match input with
  | VNull | VUndefined => Ok (JS.Uint8Array_new 0)
  | VString s => Ok (encodeString s)
  | VNumber x => encodeU64 (Number.toString x)
  | VBigInt z => encodeU64 (JS.BigInt_toString z)
  | VBoolean b => Ok [if b then 1 else 0]
  | VArray elements =>
      let* str := Array_toString elements in
      if JS.test_digits str then encodeU64 str
      else
        let* elementBytes :=
          sequence (map (encodeInputAsBytes enumContext) elements) in
        copyChunks elementBytes
  | VObject toString fields =>
      let encoded :=
        map (fun kv => (fst kv, (snd kv, encodeInputAsBytes enumContext (snd kv))))
            fields in
      match bn_digits toString with
      | Some str => encodeU64 str
      | None =>
          match get (js "elements") encoded with
          | Some (VArray _, of_elements) => of_elements
          | _ =>
              let keys := map fst fields in
              let enumKeys := List.filter JS.test_upper_start keys in
              match enumKeys, keys with
              | [variantName], [_] =>
                  let found :=
                    match enumContext with
                    | Some entries => findVariant entries variantName
                    | None => None
                    end in
                  match found with
                  | None => Throw (VariantNotFound variantName)
                  | Some discriminant =>
                      let discriminantByte := [JS.ToUint8 (Some discriminant)] in
                      let* valueBytes :=
                        match get variantName encoded with
                        | Some (_, of_value) => of_value
                        | None => Ok (JS.Uint8Array_new 0)
                        end in
                      let result0 :=
                        JS.Uint8Array_new
                          (length discriminantByte + length valueBytes) in
                      let* result1 := JS.Uint8Array_set result0 discriminantByte 0 in
                      JS.Uint8Array_set result1 valueBytes (length discriminantByte)
                  end
              | _, _ =>
                  let* fieldBytes := sequence (map (fun e => snd (snd e)) encoded) in
                  copyChunks fieldBytes
              end
          end
      end
  | VSymbol | VFunction _ => Throw (CannotEncode (typeof input))
  end.

(** The test on the last argument of [encodeMultipleInputs]: an object,
    not null, not an array, whose every property value is an array of
    strings. *)
Definition isEnumContext (last : value) : bool :=
  match last with
  | VObject _ fields =>
      forallb
        (fun kv =>
           match snd kv with
           | VArray items =>
               forallb (fun item => bool_decide (typeof item = js "string")) items
           | _ => false
           end)
        fields
  | _ => false
  end.

(** The last argument read [as { [enumName: string]: string[] }]. *)
Definition asContext (last : value) : context :=
  match last with
  | VObject _ fields =>
      map (fun kv =>
             (fst kv,
              match snd kv with
              | VArray items =>
                  map (fun item => match item with VString s => s | _ => [] end) items
              | _ => []
              end))
          fields
  | _ => []
  end.

(** [encodeMultipleInputs(...args)]. *)
Definition encodeMultipleInputs (args : list value) : result bytes :=
  let '(enumContext, actualArgs) :=
    match last args with
    | Some final =>
        if isEnumContext final
        then (Some (asContext final), removelast args)
        else (None, args)
    | None => (None, args)
    end in
  let* argBytes := sequence (map (encodeInputAsBytes enumContext) actualArgs) in
  copyChunks argBytes.

(** *** [class Hasher] *)

Record HasherFields := {
  buffer : loc;
  enumContext : option context
}.

Section Hasher.

(** [sha256] of the [fuels] package. *)
Variable sha256 : bytes -> jsstring.

(** [new Hasher(enumContext)]: the field initialiser makes the empty
    buffer, the constructor stores the context. *)
Definition new_Hasher (ctx : option context) : M HasherFields loc :=
  let! b := alloc_array [] in
  alloc_instance {| buffer := b; enumContext := ctx |}.

(** [this.update(input)]. *)
Definition update (this : loc) (input : value) : M HasherFields loc :=
  let! fields := load_instance this in
  let! bytes := lift (encodeInputAsBytes (enumContext fields) input) in
  let! _ := push (buffer fields) bytes in
  ret this.

(** [this.getBytes()]. *)
Definition getBytes (this : loc) : M HasherFields bytes :=
  let! fields := load_instance this in
  let! chunks := load_array (buffer fields) in
  lift (copyChunks chunks).

(** [this.finalize()]. *)
Definition finalize (this : loc) : M HasherFields jsstring :=
  let! combined := getBytes this in
  ret (sha256 combined).

(** [this.reset()]. *)
Definition reset (this : loc) : M HasherFields loc :=
  let! b := alloc_array [] in
  let! fields := load_instance this in
  let! _ := store_instance this {| buffer := b; enumContext := enumContext fields |} in
  ret this.

(** [this.clone()]. *)
Definition clone (this : loc) : M HasherFields loc :=
  let! fields := load_instance this in
  let! newHasher := new_Hasher (enumContext fields) in
  let! chunks := load_array (buffer fields) in
  let! copy := alloc_array chunks in
  let! _ := store_instance newHasher
              {| buffer := copy; enumContext := enumContext fields |} in
  ret newHasher.

End Hasher.

End Strict.

(** ** What the claims speak of *)

(** The bytes of [v] as an unsigned integer, most significant first. *)
Definition be_value (bs : bytes) : Z :=
  fold_left (fun acc b => acc * 256 + b) bs 0.

(** Every element is a byte. *)
Definition all_bytes (bs : bytes) : Prop :=
  Forall (fun b => 0 <= b < 256) bs.

(** The value of a two-digit hexadecimal pair. *)
Definition hex_pair (c1 c2 : Z) : option Z :=
  match JS.radix_digit 16 c1, JS.radix_digit 16 c2 with
  | Some d1, Some d2 => Some (16 * d1 + d2)
  | _, _ => None
  end.

(** A Hasher instance that is in the heap together with its buffer. *)
Definition live_index (h : heap Index.HasherFields) (this : loc) : Prop :=
  exists fields chunks,
    instances h !! this = Some fields
    /\ arrays h !! Index.buffer fields = Some chunks.

Definition live_strict (h : heap Strict.HasherFields) (this : loc) : Prop :=
  exists fields chunks,
    instances h !! this = Some fields
    /\ arrays h !! Strict.buffer fields = Some chunks.

(** Running a list of updates on one instance, stopping at the first
    exception. *)
Fixpoint updates_index (this : loc) (inputs : list value)
  : M Index.HasherFields loc :=
  match inputs with
  | [] => ret this
  | v :: rest =>
      let! self := Index.update this v in
      updates_index self rest
  end.

Fixpoint updates_strict (this : loc) (inputs : list value)
  : M Strict.HasherFields loc :=
  match inputs with
  | [] => ret this
  | v :: rest =>
      let! self := Strict.update this v in
      updates_strict self rest
  end.

(** The empty heap. *)
Definition empty_heap {I} : heap I := Heap ∅ ∅.

(** The last argument of [encodeMultipleInputs] is an input, not a
    context: it fails the test the function runs on it. *)
Definition last_is_value (args : list value) : Prop :=
  forall final, last args = Some final -> Strict.isEnumContext final = false.

(** [new Hasher().update(v1)...update(vn).getBytes()]. *)
Definition run_index (inputs : list value) : M Index.HasherFields bytes :=
  let! hasher := Index.new_Hasher in
  let! self := updates_index hasher inputs in
  Index.getBytes self.

(** [new Hasher(ctx).update(v1)...update(vn).getBytes()]. *)
Definition run_strict (ctx : option context) (inputs : list value)
  : M Strict.HasherFields bytes :=
  let! hasher := Strict.new_Hasher ctx in
  let! self := updates_strict hasher inputs in
  Strict.getBytes self.

(** The code units that are hexadecimal digits. *)
Definition hex_chars : list Z :=
  [0x30; 0x31; 0x32; 0x33; 0x34; 0x35; 0x36; 0x37; 0x38; 0x39;
   0x41; 0x42; 0x43; 0x44; 0x45; 0x46;
   0x61; 0x62; 0x63; 0x64; 0x65; 0x66].

Definition option_Z_eqb (x y : option Z) : bool :=
  match x, y with
  | Some a, Some b => a =? b
  | None, None => true
  | _, _ => false
  end.

(** The variant names [V0], [V1], ..., in a list of [n]. *)
Definition numbered_variants (n : nat) : list jsstring :=
  map (fun i => js "V" ++ JS.decimal (Z.of_nat i)) (seq 0 n).

(** A code unit that [Number.prototype.toString] can write in radix 10
    for a finite Number: a digit, [.], [e], [+] or [-]. *)
Definition is_number_char (c : Z) : bool :=
  JS.is_digit c || (c =? 0x2E) || (c =? 0x65) || (c =? 0x2B) || (c =? 0x2D).

(** A context as the object a caller passes: [{Kind: ["A", "B"], ...}]. *)
Definition context_value (ctx : context) : value :=
  plain (map (fun entry => (fst entry, VArray (map VString (snd entry)))) ctx).

(** ** Shapes of objects and induction on values *)

(** The test of the enum branch: one key, and it starts with an
    upper-case letter. *)
Definition enum_shaped (fields : list (jsstring * value)) : bool :=
  match fields with
  | [(key, _)] => JS.test_upper_start key
  | _ => false
  end.

(** The integer a string of decimal digits denotes. *)
Definition digits_value (str : jsstring) : Z :=
  fold_left (fun acc c => acc * 10 + (c - 0x30)) str 0.

(** The polynomial [c0 * 31^(n-1) + ... + c(n-1)] of the code units of a
    name. *)
Definition poly31 (name : jsstring) : Z :=
  fold_left (fun h c => 31 * h + c) name 0.

Section ValueInduction.

Variable P : value -> Prop.
Hypothesis P_undefined : P VUndefined.
Hypothesis P_null : P VNull.
Hypothesis P_boolean : forall b, P (VBoolean b).
Hypothesis P_number : forall x, P (VNumber x).
Hypothesis P_bigint : forall z, P (VBigInt z).
Hypothesis P_string : forall s, P (VString s).
Hypothesis P_symbol : P VSymbol.
Hypothesis P_function : forall source, P (VFunction source).
Hypothesis P_array : forall elements, Forall P elements -> P (VArray elements).
Hypothesis P_object : forall toString fields,
  Forall (fun kv => P (snd kv)) fields -> P (VObject toString fields).

(** Induction on a value with the hypothesis for every element of an
    array and every field of an object. *)
Fixpoint value_nested_ind (v : value) : P v :=
  match v with
  | VUndefined => P_undefined
  | VNull => P_null
  | VBoolean b => P_boolean b
  | VNumber x => P_number x
  | VBigInt z => P_bigint z
  | VString s => P_string s
  | VSymbol => P_symbol
  | VFunction source => P_function source
  | VArray elements =>
      P_array elements
        ((fix all (l : list value) : Forall P l :=
            match l with
            | [] => @List.Forall_nil _ P
            | x :: rest => @List.Forall_cons _ P x rest (value_nested_ind x) (all rest)
            end) elements)
  | VObject toString fields =>
      P_object toString fields
        ((fix all (l : list (jsstring * value)) : Forall (fun kv => P (snd kv)) l :=
            match l with
            | [] => @List.Forall_nil _ _
            | kv :: rest =>
                @List.Forall_cons _ _ kv rest (value_nested_ind (snd kv)) (all rest)
            end) fields)
  end.

End ValueInduction.

(** ** UTF-8 and UTF-16 as the standards define them *)

(** The code units of a JavaScript string are 16 bits wide. *)
Definition code_units (s : jsstring) : Prop :=
  Forall (fun c => 0 <= c < 0x10000) s.

(** A Unicode scalar value: a code point that is not a surrogate. *)
Definition is_scalar (cp : Z) : Prop :=
  0 <= cp < 0xD800 \/ 0xE000 <= cp < 0x110000.

(** The scalar values a string of UTF-16 code units stands for: a unit in
    D800..DBFF followed by one in DC00..DFFF is the supplementary code
    point of the pair, any other surrogate is replaced by U+FFFD, every
    other unit is its own code point. *)
Fixpoint scalar_values (s : jsstring) : list Z :=
  match s with
  | [] => []
  | c :: rest =>
      let lone := if (0xD800 <=? c) && (c <? 0xE000) then 0xFFFD else c in
      match rest with
      | [] => [lone]
      | d :: rest' =>
          if (0xD800 <=? c) && (c <? 0xDC00) && (0xDC00 <=? d) && (d <? 0xE000)
          then (0x10000 + 0x400 * (c - 0xD800) + (d - 0xDC00)) :: scalar_values rest'
          else lone :: scalar_values rest
      end
  end.

(** The UTF-8 form of a scalar value, by the table of RFC 3629: one byte
    up to U+007F, two up to U+07FF, three up to U+FFFF, four above; the
    first byte carries the length mark and the high bits, each further
    byte [10xxxxxx] the next six. *)
Definition utf8_of_scalar (cp : Z) : bytes :=
  if cp <=? 0x7F then [cp]
  else if cp <=? 0x7FF then [192 + cp / 64; 128 + cp mod 64]
  else if cp <=? 0xFFFF then
    [224 + cp / 4096; 128 + (cp / 64) mod 64; 128 + cp mod 64]
  else
    [240 + cp / 262144; 128 + (cp / 4096) mod 64;
     128 + (cp / 64) mod 64; 128 + cp mod 64].

(** The UTF-8 form of a string: the forms of its scalar values one after
    the other, with nothing before, between or after them. *)
Definition utf8_of_string (s : jsstring) : bytes :=
  concat (map utf8_of_scalar (scalar_values s)).

(** The six payload bits of a continuation byte [10xxxxxx]. *)
Definition continuation (b : Z) : option Z :=
  if (128 <=? b) && (b <? 192) then Some (b - 128) else None.

(** A strict UTF-8 decoder: it reads the scalar values back and refuses
    stray or missing continuation bytes, overlong forms, surrogates and
    values above U+10FFFF. *)
Fixpoint utf8_decode (bs : bytes) : option (list Z) :=
  match bs with
  | [] => Some []
  | b0 :: r0 =>
      if (0 <=? b0) && (b0 <? 128) then option_map (cons b0) (utf8_decode r0)
      else if (192 <=? b0) && (b0 <? 224) then
        match r0 with
        | b1 :: r1 =>
            match continuation b1 with
            | Some x1 =>
                let cp := (b0 - 192) * 64 + x1 in
                if 0x80 <=? cp then option_map (cons cp) (utf8_decode r1) else None
            | None => None
            end
        | _ => None
        end
      else if (224 <=? b0) && (b0 <? 240) then
        match r0 with
        | b1 :: b2 :: r2 =>
            match continuation b1, continuation b2 with
            | Some x1, Some x2 =>
                let cp := (b0 - 224) * 4096 + x1 * 64 + x2 in
                if (0x800 <=? cp) && negb ((0xD800 <=? cp) && (cp <? 0xE000))
                then option_map (cons cp) (utf8_decode r2) else None
            | _, _ => None
            end
        | _ => None
        end
      else if (240 <=? b0) && (b0 <? 248) then
        match r0 with
        | b1 :: b2 :: b3 :: r3 =>
            match continuation b1, continuation b2, continuation b3 with
            | Some x1, Some x2, Some x3 =>
                let cp := (b0 - 240) * 262144 + x1 * 4096 + x2 * 64 + x3 in
                if (0x10000 <=? cp) && (cp <? 0x110000)
                then option_map (cons cp) (utf8_decode r3) else None
            | _, _, _ => None
            end
        | _ => None
        end
      else None
  end.

(** * Properties *)

(** ** Joining chunks *)

Lemma sequence_Ok {A} (xs : list A) : sequence (map Ok xs) = Ok xs.
Proof.
  induction xs as [|x xs IH]; simpl; [reflexivity|].
  rewrite IH. reflexivity.
Qed.

Lemma sequence_app {A} (rs ss : list (result A)) :
  sequence (rs ++ ss) =
  let* xs := sequence rs in
  let* ys := sequence ss in
  Ok (xs ++ ys).
Proof.
  induction rs as [|r rs IH]; simpl.
  - destruct (sequence ss); reflexivity.
  - destruct r as [a|e]; simpl; [|reflexivity].
    rewrite IH. destruct (sequence rs); simpl; [|reflexivity].
    destruct (sequence ss); reflexivity.
Qed.

Lemma totalSize_concat (chunks : list bytes) (start : nat) :
  fold_left (fun sum b => (sum + length b)%nat) chunks start
  = (start + length (concat chunks))%nat.
Proof.
  revert start. induction chunks as [|b chunks IH]; intros start; simpl.
  - lia.
  - rewrite IH, length_app. lia.
Qed.

Lemma Uint8Array_set_spec (done tail b : bytes) :
  (length b <= length tail)%nat ->
  JS.Uint8Array_set (done ++ tail) b (length done)
  = Ok ((done ++ b) ++ skipn (length b) tail).
Proof.
  intros Hfit. unfold JS.Uint8Array_set.
  rewrite length_app.
  destruct (Nat.leb_spec (length done + length b) (length done + length tail)) as [_|Hbad];
    [|lia].
  f_equal.
  rewrite firstn_app, Nat.sub_diag, firstn_all, firstn_O, app_nil_r.
  rewrite skipn_app.
  replace (length done + length b - length done)%nat with (length b) by lia.
  rewrite skipn_all2 by lia.
  rewrite <- app_assoc. reflexivity.
Qed.

Lemma copy_loop_spec (chunks : list bytes) : forall (done tail : bytes),
  length tail = length (concat chunks) ->
  fold_left
    (fun state b =>
       let* st := state in
       let '(result, offset) := st in
       let* result' := JS.Uint8Array_set result b offset in
       Ok (result', (offset + length b)%nat))
    chunks (Ok (done ++ tail, length done))
  = Ok (done ++ concat chunks, length (done ++ concat chunks)).
Proof.
  induction chunks as [|b chunks IH]; intros done tail Hlen; simpl in *.
  - destruct tail; [|discriminate]. rewrite !app_nil_r. reflexivity.
  - rewrite length_app in Hlen.
    rewrite Uint8Array_set_spec by lia. simpl.
    rewrite <- length_app.
    rewrite IH by (rewrite length_skipn; lia).
    rewrite <- app_assoc. reflexivity.
Qed.

(** The copy loop is concatenation: nothing is written between, before or
    after the chunks, and it never throws. *)
Lemma copyChunks_concat (chunks : list bytes) :
  copyChunks chunks = Ok (concat chunks).
Proof.
  unfold copyChunks. rewrite totalSize_concat. simpl.
  pose proof (copy_loop_spec chunks [] (JS.Uint8Array_new (length (concat chunks)))) as H.
  simpl in H. rewrite H by apply repeat_length.
  reflexivity.
Qed.

(** The two [set] calls of the enum branch. *)
Lemma enum_layout (byte : Z) (valueBytes : bytes) :
  (let* result1 :=
     JS.Uint8Array_set (JS.Uint8Array_new (length [byte] + length valueBytes)) [byte] 0 in
   JS.Uint8Array_set result1 valueBytes (length [byte]))
  = Ok (byte :: valueBytes).
Proof.
  unfold JS.Uint8Array_set, JS.Uint8Array_new. simpl.
  rewrite skipn_O, repeat_length, Nat.leb_refl.
  rewrite skipn_all2 by (rewrite repeat_length; lia).
  rewrite app_nil_r. reflexivity.
Qed.

(** ** The encoder, case by case *)

Lemma Index_encode_array (elements : list value) :
  Index.encodeInputAsBytes (VArray elements) =
  let* str := Array_toString elements in
  if JS.test_digits str then encodeU64 str
  else
    let* elementBytes := sequence (map Index.encodeInputAsBytes elements) in
    Ok (concat elementBytes).
Proof.
  simpl. destruct (Array_toString elements) as [str|e]; simpl; [|reflexivity].
  destruct (JS.test_digits str); [reflexivity|].
  destruct (sequence _); simpl; [apply copyChunks_concat | reflexivity].
Qed.

Lemma Strict_encode_array (ctx : option context) (elements : list value) :
  Strict.encodeInputAsBytes ctx (VArray elements) =
  let* str := Array_toString elements in
  if JS.test_digits str then encodeU64 str
  else
    let* elementBytes := sequence (map (Strict.encodeInputAsBytes ctx) elements) in
    Ok (concat elementBytes).
Proof.
  simpl. destruct (Array_toString elements) as [str|e]; simpl; [|reflexivity].
  destruct (JS.test_digits str); [reflexivity|].
  destruct (sequence _); simpl; [apply copyChunks_concat | reflexivity].
Qed.

(** ** [encodeMultipleInputs] *)

Lemma Index_encodeMultipleInputs_concat (args : list value) :
  Index.encodeMultipleInputs args =
  let* argBytes := sequence (map Index.encodeInputAsBytes args) in
  Ok (concat argBytes).
Proof.
  unfold Index.encodeMultipleInputs.
  destruct (sequence _); simpl; [apply copyChunks_concat | reflexivity].
Qed.

Lemma Strict_encodeMultipleInputs_concat (args : list value) :
  last_is_value args ->
  Strict.encodeMultipleInputs args =
  let* argBytes := sequence (map (Strict.encodeInputAsBytes None) args) in
  Ok (concat argBytes).
Proof.
  intros Hlast. unfold Strict.encodeMultipleInputs.
  destruct (last args) as [final|] eqn:E.
  - rewrite (Hlast final E).
    destruct (sequence _); simpl; [apply copyChunks_concat | reflexivity].
  - destruct (sequence _); simpl; [apply copyChunks_concat | reflexivity].
Qed.

(** When the last argument is shaped like a context it is taken as the
    context and the arguments before it are encoded under it. *)
Lemma Strict_encodeMultipleInputs_context (args : list value) (final : value) :
  Strict.isEnumContext final = true ->
  Strict.encodeMultipleInputs (args ++ [final]) =
  let* argBytes :=
    sequence (map (Strict.encodeInputAsBytes (Some (Strict.asContext final))) args) in
  Ok (concat argBytes).
Proof.
  intros Hctx. unfold Strict.encodeMultipleInputs.
  rewrite last_snoc, Hctx, removelast_last.
  destruct (sequence _); simpl; [apply copyChunks_concat | reflexivity].
Qed.

(** ** The Hasher of [src/index.ts] on the heap *)

Lemma Index_update_Ok (h : heap Index.HasherFields) this fields chunks input bs :
  instances h !! this = Some fields ->
  arrays h !! Index.buffer fields = Some chunks ->
  Index.encodeInputAsBytes input = Ok bs ->
  Index.update this input h
  = (Ok this,
     Heap (<[Index.buffer fields := chunks ++ [bs]]> (arrays h)) (instances h)).
Proof.
  intros Hi Ha He.
  unfold Index.update, bindM, lift, load_instance, push, ret.
  rewrite He, Hi, Ha. reflexivity.
Qed.

Lemma Index_update_Throw (h : heap Index.HasherFields) this input e :
  Index.encodeInputAsBytes input = Throw e ->
  Index.update this input h = (Throw e, h).
Proof.
  intros He. unfold Index.update, bindM, lift. rewrite He. reflexivity.
Qed.

Lemma Index_getBytes_concat (h : heap Index.HasherFields) this fields chunks :
  instances h !! this = Some fields ->
  arrays h !! Index.buffer fields = Some chunks ->
  Index.getBytes this h = (Ok (concat chunks), h).
Proof.
  intros Hi Ha.
  unfold Index.getBytes, bindM, lift, load_instance, load_array.
  rewrite Hi, Ha, copyChunks_concat. reflexivity.
Qed.

Lemma Index_digest_concat sha256 (h : heap Index.HasherFields) this fields chunks :
  instances h !! this = Some fields ->
  arrays h !! Index.buffer fields = Some chunks ->
  Index.digest sha256 this h = (Ok (sha256 (concat chunks)), h).
Proof.
  intros Hi Ha.
  unfold Index.digest, bindM, lift, load_instance, load_array, ret.
  rewrite Hi, Ha, copyChunks_concat. reflexivity.
Qed.

Lemma Index_updates_spec (inputs : list value) :
  forall (h : heap Index.HasherFields) this fields chunks,
  instances h !! this = Some fields ->
  arrays h !! Index.buffer fields = Some chunks ->
  match sequence (map Index.encodeInputAsBytes inputs) with
  | Ok added =>
      exists h',
        updates_index this inputs h = (Ok this, h')
        /\ instances h' !! this = Some fields
        /\ arrays h' !! Index.buffer fields = Some (chunks ++ added)
  | Throw e => exists h', updates_index this inputs h = (Throw e, h')
  end.
Proof.
  induction inputs as [|v inputs IH]; intros h this fields chunks Hi Ha; simpl.
  - exists h. rewrite app_nil_r. auto.
  - destruct (Index.encodeInputAsBytes v) as [bs|e] eqn:Ev; simpl.
    + specialize (IH (Heap (<[Index.buffer fields := chunks ++ [bs]]> (arrays h)) (instances h))
                     this fields (chunks ++ [bs]) Hi (lookup_insert_eq _ _ _)).
      unfold bindM. rewrite (Index_update_Ok h this fields chunks v bs Hi Ha Ev).
      destruct (sequence (map Index.encodeInputAsBytes inputs)) as [added|e]; simpl.
      * destruct IH as (h' & Hrun & Hi' & Ha'). exists h'.
        rewrite <- app_assoc in Ha'. auto.
      * exact IH.
    + exists h. unfold bindM. rewrite (Index_update_Throw h this v e Ev). reflexivity.
Qed.

Lemma Index_run_spec (inputs : list value) (h : heap Index.HasherFields) :
  fst (run_index inputs h)
  = let* added := sequence (map Index.encodeInputAsBytes inputs) in
    Ok (concat added).
Proof.
  unfold run_index, Index.new_Hasher, alloc_array, alloc_instance.
  unfold bindM at 1. unfold bindM at 2. simpl.
  set (b := fresh (dom (arrays h))).
  set (l := fresh (dom (instances h))).
  set (h1 := Heap (<[b := []]> (arrays h)) (<[l := {| Index.buffer := b |}]> (instances h))).
  pose proof (Index_updates_spec inputs h1 l {| Index.buffer := b |} []
                (lookup_insert_eq _ _ _) (lookup_insert_eq _ _ _)) as H.
  unfold bindM.
  destruct (sequence (map Index.encodeInputAsBytes inputs)) as [added|e]; simpl in *.
  - destruct H as (h' & Hrun & Hi' & Ha'). rewrite Hrun.
    rewrite (Index_getBytes_concat h' l _ _ Hi' Ha'). reflexivity.
  - destruct H as (h' & Hrun). rewrite Hrun. reflexivity.
Qed.

(** ** The Hasher with an enum context on the heap *)

Lemma Strict_update_Ok (h : heap Strict.HasherFields) this fields chunks input bs :
  instances h !! this = Some fields ->
  arrays h !! Strict.buffer fields = Some chunks ->
  Strict.encodeInputAsBytes (Strict.enumContext fields) input = Ok bs ->
  Strict.update this input h
  = (Ok this,
     Heap (<[Strict.buffer fields := chunks ++ [bs]]> (arrays h)) (instances h)).
Proof.
  intros Hi Ha He.
  unfold Strict.update, bindM, lift, load_instance, push, ret.
  rewrite Hi, He, Ha. reflexivity.
Qed.

Lemma Strict_update_Throw (h : heap Strict.HasherFields) this fields input e :
  instances h !! this = Some fields ->
  Strict.encodeInputAsBytes (Strict.enumContext fields) input = Throw e ->
  Strict.update this input h = (Throw e, h).
Proof.
  intros Hi He. unfold Strict.update, bindM, lift, load_instance.
  rewrite Hi, He. reflexivity.
Qed.

Lemma Strict_getBytes_concat (h : heap Strict.HasherFields) this fields chunks :
  instances h !! this = Some fields ->
  arrays h !! Strict.buffer fields = Some chunks ->
  Strict.getBytes this h = (Ok (concat chunks), h).
Proof.
  intros Hi Ha.
  unfold Strict.getBytes, bindM, lift, load_instance, load_array.
  rewrite Hi, Ha, copyChunks_concat. reflexivity.
Qed.

Lemma Strict_finalize_concat sha256 (h : heap Strict.HasherFields) this fields chunks :
  instances h !! this = Some fields ->
  arrays h !! Strict.buffer fields = Some chunks ->
  Strict.finalize sha256 this h = (Ok (sha256 (concat chunks)), h).
Proof.
  intros Hi Ha. unfold Strict.finalize, bindM.
  rewrite (Strict_getBytes_concat h this fields chunks Hi Ha). reflexivity.
Qed.

Lemma Strict_updates_spec (inputs : list value) :
  forall (h : heap Strict.HasherFields) this fields chunks,
  instances h !! this = Some fields ->
  arrays h !! Strict.buffer fields = Some chunks ->
  match sequence (map (Strict.encodeInputAsBytes (Strict.enumContext fields)) inputs) with
  | Ok added =>
      exists h',
        updates_strict this inputs h = (Ok this, h')
        /\ instances h' !! this = Some fields
        /\ arrays h' !! Strict.buffer fields = Some (chunks ++ added)
  | Throw e => exists h', updates_strict this inputs h = (Throw e, h')
  end.
Proof.
  induction inputs as [|v inputs IH]; intros h this fields chunks Hi Ha; simpl.
  - exists h. rewrite app_nil_r. auto.
  - destruct (Strict.encodeInputAsBytes (Strict.enumContext fields) v) as [bs|e] eqn:Ev; simpl.
    + specialize (IH (Heap (<[Strict.buffer fields := chunks ++ [bs]]> (arrays h)) (instances h))
                     this fields (chunks ++ [bs]) Hi (lookup_insert_eq _ _ _)).
      unfold bindM. rewrite (Strict_update_Ok h this fields chunks v bs Hi Ha Ev).
      destruct (sequence (map _ inputs)) as [added|e]; simpl.
      * destruct IH as (h' & Hrun & Hi' & Ha'). exists h'.
        rewrite <- app_assoc in Ha'. auto.
      * exact IH.
    + exists h. unfold bindM. rewrite (Strict_update_Throw h this fields v e Hi Ev). reflexivity.
Qed.

Lemma Strict_run_spec (ctx : option context) (inputs : list value)
  (h : heap Strict.HasherFields) :
  fst (run_strict ctx inputs h)
  = let* added := sequence (map (Strict.encodeInputAsBytes ctx) inputs) in
    Ok (concat added).
Proof.
  unfold run_strict, Strict.new_Hasher, alloc_array, alloc_instance.
  unfold bindM at 1. unfold bindM at 2. simpl.
  set (b := fresh (dom (arrays h))).
  set (l := fresh (dom (instances h))).
  set (f := {| Strict.buffer := b; Strict.enumContext := ctx |}).
  set (h1 := Heap (<[b := []]> (arrays h)) (<[l := f]> (instances h))).
  pose proof (Strict_updates_spec inputs h1 l f []
                (lookup_insert_eq _ _ _) (lookup_insert_eq _ _ _)) as H.
  unfold bindM. simpl in H.
  destruct (sequence (map (Strict.encodeInputAsBytes ctx) inputs)) as [added|e]; simpl in *.
  - destruct H as (h' & Hrun & Hi' & Ha'). rewrite Hrun.
    rewrite (Strict_getBytes_concat h' l _ _ Hi' Ha'). reflexivity.
  - destruct H as (h' & Hrun). rewrite Hrun. reflexivity.
Qed.

(** ** The context as the last argument *)

Lemma isEnumContext_context_value (ctx : context) :
  Strict.isEnumContext (context_value ctx) = true.
Proof.
  unfold context_value, plain, Strict.isEnumContext.
  apply forallb_forall. intros [k v] Hin.
  apply in_map_iff in Hin as ([name variants] & [= <- <-] & _). simpl.
  apply forallb_forall. intros item Hitem.
  apply in_map_iff in Hitem as (s & <- & _). reflexivity.
Qed.

Lemma asContext_context_value (ctx : context) :
  Strict.asContext (context_value ctx) = ctx.
Proof.
  unfold context_value, plain, Strict.asContext.
  rewrite map_map. rewrite <- (map_id ctx) at 2.
  apply map_ext. intros [name variants]. simpl. f_equal.
  rewrite map_map. rewrite <- (map_id variants) at 2. reflexivity.
Qed.

(** A Hasher made with a context agrees with [encodeMultipleInputs] called
    with that context after the inputs. *)
Lemma Strict_run_with_context (ctx : context) (inputs : list value)
  (h : heap Strict.HasherFields) :
  fst (run_strict (Some ctx) inputs h)
  = Strict.encodeMultipleInputs (inputs ++ [context_value ctx]).
Proof.
  rewrite Strict_run_spec.
  rewrite (Strict_encodeMultipleInputs_context inputs (context_value ctx)
             (isEnumContext_context_value ctx)).
  rewrite asContext_context_value. reflexivity.
Qed.

(** ** The claims on [encodeMultipleInputs] and the Hasher *)

(** C1, as stated, fails in the file with an enum context:
    [encodeMultipleInputs(5, {x: ["A"]})] takes its last argument for the
    context, so the bytes are those of [5] alone, while [{x: ["A"]}] on
    its own encodes to the byte of ["A"]. *)
Lemma C1_counterexample :
  let a := VNumber (Number.of_Z 5) in
  let b := plain [(js "x", VArray [VString (js "A")])] in
  Strict.encodeInputAsBytes None a = Ok [0; 0; 0; 0; 0; 0; 0; 5]
  /\ Strict.encodeInputAsBytes None b = Ok [65]
  /\ Strict.encodeMultipleInputs [a; b] = Ok [0; 0; 0; 0; 0; 0; 0; 5]
  /\ Strict.encodeMultipleInputs [a; b] <> Ok ([0; 0; 0; 0; 0; 0; 0; 5] ++ [65]).
Proof.
  vm_compute. repeat split; discriminate.
Qed.

(** C1 (amended). For two values that each encode, the bytes of
    [encodeMultipleInputs(a, b)] are the bytes of [a] followed by the
    bytes of [b]: in [src/index.ts] for every [a] and [b]; in the file
    with an enum context when [b] is not shaped like a context (a
    non-null, non-array object whose property values are all arrays of
    strings). *)
Theorem C1_concatenation_law (a b : value) :
  (forall xa xb,
      Index.encodeInputAsBytes a = Ok xa ->
      Index.encodeInputAsBytes b = Ok xb ->
      Index.encodeMultipleInputs [a; b] = Ok (xa ++ xb))
  /\ (forall xa xb,
         Strict.isEnumContext b = false ->
         Strict.encodeInputAsBytes None a = Ok xa ->
         Strict.encodeInputAsBytes None b = Ok xb ->
         Strict.encodeMultipleInputs [a; b] = Ok (xa ++ xb)).
Proof.
  split.
  - intros xa xb Ha Hb. rewrite Index_encodeMultipleInputs_concat. simpl.
    rewrite Ha, Hb. simpl. rewrite app_nil_r. reflexivity.
  - intros xa xb Hshape Ha Hb. rewrite Strict_encodeMultipleInputs_concat.
    + simpl. rewrite Ha, Hb. simpl. rewrite app_nil_r. reflexivity.
    + intros final Hfinal. simpl in Hfinal. congruence.
Qed.

(** The law at [true] followed by a string, and by a struct. *)
Lemma C1_concatenation_law_witness :
  let a := VBoolean true in
  let b := VString (js "hi") in
  let c := plain [(js "a", VString (js "hi"))] in
  (Index.encodeInputAsBytes a = Ok [1]
   /\ Index.encodeInputAsBytes b = Ok [104; 105]
   /\ Index.encodeMultipleInputs [a; b] = Ok ([1] ++ [104; 105]))
  /\ (Strict.isEnumContext c = false
      /\ Strict.encodeInputAsBytes None a = Ok [1]
      /\ Strict.encodeInputAsBytes None c = Ok [104; 105]
      /\ Strict.encodeMultipleInputs [a; c] = Ok ([1] ++ [104; 105])).
Proof.
  split.
  - split; [reflexivity|]. split; [reflexivity|].
    apply (proj1 (C1_concatenation_law (VBoolean true) (VString (js "hi")))); reflexivity.
  - split; [reflexivity|]. split; [reflexivity|]. split; [reflexivity|].
    apply (proj2 (C1_concatenation_law (VBoolean true)
                    (plain [(js "a", VString (js "hi"))]))); reflexivity.
Defined.

(** C2, as stated, fails in the file with an enum context: the one value
    [{x: ["A"]}] encodes, a fresh Hasher updated with it holds the byte of
    ["A"], and [encodeMultipleInputs({x: ["A"]})] takes it for the context
    and returns no bytes. *)
Lemma C2_counterexample :
  let v := plain [(js "x", VArray [VString (js "A")])] in
  Strict.encodeInputAsBytes None v = Ok [65]
  /\ fst (run_strict None [v] empty_heap) = Ok [65]
  /\ Strict.encodeMultipleInputs [v] = Ok []
  /\ fst (run_strict None [v] empty_heap) <> Strict.encodeMultipleInputs [v].
Proof.
  vm_compute. repeat split; discriminate.
Qed.

(** C2 (amended). A fresh Hasher updated with [v1 .. vn] in order returns
    from [getBytes()] what [encodeMultipleInputs(v1, ..., vn)] returns,
    bytes or the first exception alike: in [src/index.ts] for every
    sequence; in the file with an enum context when the last value is not
    shaped like a context. *)
Theorem C2_accumulator_equivalence (inputs : list value) :
  (forall h : heap Index.HasherFields,
      fst (run_index inputs h) = Index.encodeMultipleInputs inputs)
  /\ (forall h : heap Strict.HasherFields,
         last_is_value inputs ->
         fst (run_strict None inputs h) = Strict.encodeMultipleInputs inputs).
Proof.
  split.
  - intros h. rewrite Index_run_spec, Index_encodeMultipleInputs_concat. reflexivity.
  - intros h Hlast.
    rewrite Strict_run_spec, (Strict_encodeMultipleInputs_concat inputs Hlast).
    reflexivity.
Qed.

(** The equivalence at the inputs [5] and [true]. *)
Lemma C2_accumulator_equivalence_witness :
  let inputs := [VNumber (Number.of_Z 5); VBoolean true] in
  last_is_value inputs
  /\ fst (run_strict None inputs empty_heap) = Strict.encodeMultipleInputs inputs.
Proof.
  assert (last_is_value [VNumber (Number.of_Z 5); VBoolean true]) as Hlast.
  { intros final Hfinal. simpl in Hfinal. inversion Hfinal. reflexivity. }
  split; [exact Hlast|].
  exact (proj2 (C2_accumulator_equivalence [VNumber (Number.of_Z 5); VBoolean true])
               empty_heap Hlast).
Defined.

(** C7. An [update] that throws leaves the whole heap as it was, the
    buffer of the instance included: [getBytes()] afterwards is what it
    was before, and no chunk was pushed. *)
Theorem C7_failed_update_keeps_buffer (this : loc) (input : value) (e : exn) :
  (forall h h' : heap Index.HasherFields,
      Index.update this input h = (Throw e, h') ->
      h' = h /\ Index.getBytes this h' = Index.getBytes this h)
  /\ (forall h h' : heap Strict.HasherFields,
         Strict.update this input h = (Throw e, h') ->
         h' = h /\ Strict.getBytes this h' = Strict.getBytes this h).
Proof.
  split; intros h h' Hup.
  - assert (h' = h) as ->; [|auto].
    unfold Index.update, bindM, lift, load_instance, push, ret in Hup.
    destruct (Index.encodeInputAsBytes input); [|congruence].
    destruct (instances h !! this); [|congruence].
    destruct (arrays h !! _); congruence.
  - assert (h' = h) as ->; [|auto].
    unfold Strict.update, bindM, lift, load_instance, push, ret in Hup.
    destruct (instances h !! this); [|congruence].
    destruct (Strict.encodeInputAsBytes _ input); [|congruence].
    destruct (arrays h !! _); congruence.
Qed.

(** A Symbol, and an enum without a context, thrown by [update] on a new
    Hasher. *)
Lemma C7_failed_update_keeps_buffer_witness :
  let h := snd (Index.new_Hasher empty_heap) in
  let h2 := snd (Strict.new_Hasher None empty_heap) in
  let tagged := plain [(js "Activate", VNull)] in
  (Index.update 1%positive VSymbol h = (Throw (CannotEncode (js "symbol")), h)
   /\ h = h /\ Index.getBytes 1%positive h = Index.getBytes 1%positive h)
  /\ (Strict.update 1%positive tagged h2 = (Throw (VariantNotFound (js "Activate")), h2)
      /\ h2 = h2 /\ Strict.getBytes 1%positive h2 = Strict.getBytes 1%positive h2).
Proof.
  assert (Index.update 1%positive VSymbol (snd (Index.new_Hasher empty_heap))
          = (Throw (CannotEncode (js "symbol")), snd (Index.new_Hasher empty_heap))) as H1
    by (vm_compute; reflexivity).
  assert (Strict.update 1%positive (plain [(js "Activate", VNull)])
            (snd (Strict.new_Hasher None empty_heap))
          = (Throw (VariantNotFound (js "Activate")),
             snd (Strict.new_Hasher None empty_heap))) as H2
    by (vm_compute; reflexivity).
  split.
  - split; [exact H1|].
    exact (proj1 (C7_failed_update_keeps_buffer _ _ _) _ _ H1).
  - split; [exact H2|].
    exact (proj2 (C7_failed_update_keeps_buffer _ _ _) _ _ H2).
Defined.

(** ** [clone] *)

Lemma fresh_ne {V} (m : gmap loc V) (l : loc) (v : V) :
  m !! l = Some v -> fresh (dom m) <> l.
Proof.
  intros Hl Heq. apply (is_fresh (dom m)). rewrite Heq.
  apply (elem_of_dom_2 m l v Hl).
Qed.

Lemma Index_clone_spec (h : heap Index.HasherFields) a1 f1 chunks :
  instances h !! a1 = Some f1 ->
  arrays h !! Index.buffer f1 = Some chunks ->
  let b0 := fresh (dom (arrays h)) in
  let a2 := fresh (dom (instances h)) in
  let c := fresh (dom (<[b0 := []]> (arrays h))) in
  Index.clone a1 h
  = (Ok a2,
     Heap (<[c := chunks]> (<[b0 := []]> (arrays h)))
          (<[a2 := {| Index.buffer := c |}]>
             (<[a2 := {| Index.buffer := b0 |}]> (instances h)))).
Proof.
  intros Hi Ha b0 a2 c.
  assert (a2 <> a1) as Hne by (apply (fresh_ne _ _ _ Hi)).
  assert (b0 <> Index.buffer f1) as Hnb by (apply (fresh_ne _ _ _ Ha)).
  unfold Index.clone, Index.new_Hasher, bindM, alloc_array, alloc_instance,
    load_instance, load_array, store_instance, ret. simpl.
  fold b0. fold a2.
  rewrite (lookup_insert_ne _ a2 a1) by exact Hne. rewrite Hi. simpl.
  rewrite (lookup_insert_ne _ b0 (Index.buffer f1)) by exact Hnb. rewrite Ha.
  simpl. rewrite lookup_insert_eq. reflexivity.
Qed.

Lemma Index_getBytes_ext (h h' : heap Index.HasherFields) this fields :
  instances h !! this = Some fields ->
  instances h' !! this = Some fields ->
  arrays h' !! Index.buffer fields = arrays h !! Index.buffer fields ->
  fst (Index.getBytes this h') = fst (Index.getBytes this h).
Proof.
  intros Hi Hi' Ha.
  unfold Index.getBytes, bindM, lift, load_instance, load_array.
  rewrite Hi, Hi', Ha. destruct (arrays h !! _); reflexivity.
Qed.

(** An update writes one array only: the buffer of [this]. *)
Lemma Index_update_frame (h : heap Index.HasherFields) this input fields :
  instances h !! this = Some fields ->
  let h' := snd (Index.update this input h) in
  instances h' = instances h
  /\ forall b, b <> Index.buffer fields -> arrays h' !! b = arrays h !! b.
Proof.
  intros Hi. unfold Index.update, bindM, lift, load_instance, push, ret.
  destruct (Index.encodeInputAsBytes input); simpl; [|auto].
  rewrite Hi. destruct (arrays h !! Index.buffer fields); simpl; [|auto].
  split; [reflexivity|]. intros b Hb. apply lookup_insert_ne. congruence.
Qed.

Lemma Strict_clone_spec (h : heap Strict.HasherFields) a1 f1 chunks :
  instances h !! a1 = Some f1 ->
  arrays h !! Strict.buffer f1 = Some chunks ->
  let b0 := fresh (dom (arrays h)) in
  let a2 := fresh (dom (instances h)) in
  let c := fresh (dom (<[b0 := []]> (arrays h))) in
  Strict.clone a1 h
  = (Ok a2,
     Heap (<[c := chunks]> (<[b0 := []]> (arrays h)))
          (<[a2 := {| Strict.buffer := c; Strict.enumContext := Strict.enumContext f1 |}]>
             (<[a2 := {| Strict.buffer := b0; Strict.enumContext := Strict.enumContext f1 |}]>
                (instances h)))).
Proof.
  intros Hi Ha b0 a2 c.
  assert (b0 <> Strict.buffer f1) as Hnb by (apply (fresh_ne _ _ _ Ha)).
  unfold Strict.clone, Strict.new_Hasher, bindM, alloc_array, alloc_instance,
    load_instance, load_array, store_instance, ret. simpl.
  rewrite Hi. simpl. fold b0. fold a2.
  rewrite (lookup_insert_ne _ b0 (Strict.buffer f1)) by exact Hnb. rewrite Ha.
  simpl. rewrite lookup_insert_eq. reflexivity.
Qed.

Lemma Strict_getBytes_ext (h h' : heap Strict.HasherFields) this fields :
  instances h !! this = Some fields ->
  instances h' !! this = Some fields ->
  arrays h' !! Strict.buffer fields = arrays h !! Strict.buffer fields ->
  fst (Strict.getBytes this h') = fst (Strict.getBytes this h).
Proof.
  intros Hi Hi' Ha.
  unfold Strict.getBytes, bindM, lift, load_instance, load_array.
  rewrite Hi, Hi', Ha. destruct (arrays h !! _); reflexivity.
Qed.

Lemma Strict_update_frame (h : heap Strict.HasherFields) this input fields :
  instances h !! this = Some fields ->
  let h' := snd (Strict.update this input h) in
  instances h' = instances h
  /\ forall b, b <> Strict.buffer fields -> arrays h' !! b = arrays h !! b.
Proof.
  intros Hi. unfold Strict.update, bindM, lift, load_instance, push, ret.
  rewrite Hi. destruct (Strict.encodeInputAsBytes _ input); simpl; [|auto].
  destruct (arrays h !! Strict.buffer fields); simpl; [|auto].
  split; [reflexivity|]. intros b Hb. apply lookup_insert_ne. congruence.
Qed.

(** C8. [a1.clone()] returns a new instance whose buffer is a new array
    holding the same chunks (and, in the file with an enum context, the
    same context). An update of the clone leaves [a1.getBytes()] as it
    was, and an update of [a1] leaves the clone's [getBytes()] as it
    was. *)
Theorem C8_clone_isolation :
  (forall (h : heap Index.HasherFields) (a1 : loc),
      live_index h a1 ->
      exists a2 h1 f1 f2 chunks,
        Index.clone a1 h = (Ok a2, h1)
        /\ a2 <> a1
        /\ instances h1 !! a1 = Some f1
        /\ instances h1 !! a2 = Some f2
        /\ Index.buffer f2 <> Index.buffer f1
        /\ arrays h !! Index.buffer f1 = Some chunks
        /\ arrays h1 !! Index.buffer f1 = Some chunks
        /\ arrays h1 !! Index.buffer f2 = Some chunks
        /\ (forall x, fst (Index.getBytes a1 (snd (Index.update a2 x h1)))
                      = fst (Index.getBytes a1 h1))
        /\ (forall x, fst (Index.getBytes a2 (snd (Index.update a1 x h1)))
                      = fst (Index.getBytes a2 h1)))
  /\ (forall (h : heap Strict.HasherFields) (a1 : loc),
         live_strict h a1 ->
         exists a2 h1 f1 f2 chunks,
           Strict.clone a1 h = (Ok a2, h1)
           /\ a2 <> a1
           /\ instances h1 !! a1 = Some f1
           /\ instances h1 !! a2 = Some f2
           /\ Strict.buffer f2 <> Strict.buffer f1
           /\ Strict.enumContext f2 = Strict.enumContext f1
           /\ arrays h !! Strict.buffer f1 = Some chunks
           /\ arrays h1 !! Strict.buffer f1 = Some chunks
           /\ arrays h1 !! Strict.buffer f2 = Some chunks
           /\ (forall x, fst (Strict.getBytes a1 (snd (Strict.update a2 x h1)))
                         = fst (Strict.getBytes a1 h1))
           /\ (forall x, fst (Strict.getBytes a2 (snd (Strict.update a1 x h1)))
                         = fst (Strict.getBytes a2 h1))).
Proof.
  split; intros h a1 (f1 & chunks & Hi & Ha).
  - pose proof (Index_clone_spec h a1 f1 chunks Hi Ha) as Hclone. simpl in Hclone.
    set (b0 := fresh (dom (arrays h))) in *.
    set (a2 := fresh (dom (instances h))) in *.
    set (c := fresh (dom (<[b0 := []]> (arrays h)))) in *.
    set (h1 := Heap _ _) in Hclone.
    assert (a2 <> a1) as Hne by (apply (fresh_ne _ _ _ Hi)).
    assert (b0 <> Index.buffer f1) as Hnb by (apply (fresh_ne _ _ _ Ha)).
    assert (c <> Index.buffer f1) as Hnc.
    { apply (fresh_ne (<[b0 := []]> (arrays h)) _ chunks).
      rewrite lookup_insert_ne by exact Hnb. exact Ha. }
    assert (instances h1 !! a1 = Some f1) as Hi1.
    { unfold h1. simpl. rewrite !lookup_insert_ne by exact Hne. exact Hi. }
    assert (instances h1 !! a2 = Some {| Index.buffer := c |}) as Hi2.
    { unfold h1. simpl. apply lookup_insert_eq. }
    assert (arrays h1 !! Index.buffer f1 = Some chunks) as Ha1.
    { unfold h1. simpl. rewrite !lookup_insert_ne by assumption. exact Ha. }
    assert (arrays h1 !! c = Some chunks) as Ha2.
    { unfold h1. simpl. apply lookup_insert_eq. }
    exists a2, h1, f1, {| Index.buffer := c |}, chunks. simpl.
    repeat split; try assumption.
    + intros x.
      destruct (Index_update_frame h1 a2 x _ Hi2) as [Hsame Hother].
      apply (Index_getBytes_ext h1 _ a1 f1 Hi1).
      * rewrite Hsame. exact Hi1.
      * apply Hother. simpl. congruence.
    + intros x.
      destruct (Index_update_frame h1 a1 x _ Hi1) as [Hsame Hother].
      apply (Index_getBytes_ext h1 _ a2 _ Hi2).
      * rewrite Hsame. exact Hi2.
      * apply Hother. simpl. exact Hnc.
  - pose proof (Strict_clone_spec h a1 f1 chunks Hi Ha) as Hclone. simpl in Hclone.
    set (b0 := fresh (dom (arrays h))) in *.
    set (a2 := fresh (dom (instances h))) in *.
    set (c := fresh (dom (<[b0 := []]> (arrays h)))) in *.
    set (h1 := Heap _ _) in Hclone.
    set (f2 := {| Strict.buffer := c; Strict.enumContext := Strict.enumContext f1 |}).
    assert (a2 <> a1) as Hne by (apply (fresh_ne _ _ _ Hi)).
    assert (b0 <> Strict.buffer f1) as Hnb by (apply (fresh_ne _ _ _ Ha)).
    assert (c <> Strict.buffer f1) as Hnc.
    { apply (fresh_ne (<[b0 := []]> (arrays h)) _ chunks).
      rewrite lookup_insert_ne by exact Hnb. exact Ha. }
    assert (instances h1 !! a1 = Some f1) as Hi1.
    { unfold h1. simpl. rewrite !lookup_insert_ne by exact Hne. exact Hi. }
    assert (instances h1 !! a2 = Some f2) as Hi2.
    { unfold h1. simpl. apply lookup_insert_eq. }
    assert (arrays h1 !! Strict.buffer f1 = Some chunks) as Ha1.
    { unfold h1. simpl. rewrite !lookup_insert_ne by assumption. exact Ha. }
    assert (arrays h1 !! c = Some chunks) as Ha2.
    { unfold h1. simpl. apply lookup_insert_eq. }
    exists a2, h1, f1, f2, chunks. simpl.
    repeat split; try assumption.
    + intros x.
      destruct (Strict_update_frame h1 a2 x _ Hi2) as [Hsame Hother].
      apply (Strict_getBytes_ext h1 _ a1 f1 Hi1).
      * rewrite Hsame. exact Hi1.
      * apply Hother. simpl. congruence.
    + intros x.
      destruct (Strict_update_frame h1 a1 x _ Hi1) as [Hsame Hother].
      apply (Strict_getBytes_ext h1 _ a2 _ Hi2).
      * rewrite Hsame. exact Hi2.
      * apply Hother. simpl. exact Hnc.
Qed.

(** A Hasher that holds one chunk, and its clone. *)
Lemma C8_clone_isolation_witness :
  let h := snd (Index.update 1%positive (VBoolean true)
                  (snd (Index.new_Hasher empty_heap))) in
  live_index h 1%positive
  /\ exists a2 h1,
       Index.clone 1%positive h = (Ok a2, h1)
       /\ a2 <> 1%positive
       /\ (forall x, fst (Index.getBytes 1%positive (snd (Index.update a2 x h1)))
                     = fst (Index.getBytes 1%positive h1))
       /\ (forall x, fst (Index.getBytes a2 (snd (Index.update 1%positive x h1)))
                     = fst (Index.getBytes a2 h1)).
Proof.
  assert (live_index
            (snd (Index.update 1%positive (VBoolean true)
                    (snd (Index.new_Hasher empty_heap)))) 1%positive) as Hlive.
  { exists {| Index.buffer := 1%positive |}, [[1]]. split; vm_compute; reflexivity. }
  split; [exact Hlive|].
  destruct (proj1 C8_clone_isolation _ _ Hlive)
    as (a2 & h1 & f1 & f2 & chunks & Hclone & Hne & _ & _ & _ & _ & _ & _ & H1 & H2).
  exists a2, h1. auto.
Defined.

(** ** Inputs that encode to nothing *)

(** C9. [null], [undefined], [[]] and [{}] all encode to the empty byte
    sequence, and an update with any of them leaves [getBytes()] and the
    digest of a Hasher as they were. *)
Theorem C9_empty_encodings (sha256 : bytes -> jsstring)
  (h : heap Index.HasherFields) (this : loc) (v : value) :
  In v [VNull; VUndefined; VArray []; plain []] ->
  live_index h this ->
  Index.encodeInputAsBytes v = Ok []
  /\ exists h',
       Index.update this v h = (Ok this, h')
       /\ fst (Index.getBytes this h') = fst (Index.getBytes this h)
       /\ fst (Index.digest sha256 this h') = fst (Index.digest sha256 this h).
Proof.
  intros Hv (fields & chunks & Hi & Ha).
  assert (Index.encodeInputAsBytes v = Ok []) as Henc.
  { simpl in Hv. destruct Hv as [<-|[<-|[<-|[<-|[]]]]]; reflexivity. }
  split; [exact Henc|].
  rewrite (Index_update_Ok h this fields chunks v [] Hi Ha Henc).
  set (h' := Heap (<[Index.buffer fields := chunks ++ [[]]]> (arrays h)) (instances h)).
  exists h'. split; [reflexivity|].
  rewrite (Index_getBytes_concat h this fields chunks Hi Ha).
  rewrite (Index_digest_concat sha256 h this fields chunks Hi Ha).
  rewrite (Index_getBytes_concat h' this fields (chunks ++ [[]]) Hi (lookup_insert_eq _ _ _)).
  rewrite (Index_digest_concat sha256 h' this fields (chunks ++ [[]]) Hi (lookup_insert_eq _ _ _)).
  rewrite concat_app. simpl. rewrite app_nil_r. auto.
Qed.

(** [{}] appended to a Hasher that holds ["hi"]. *)
Lemma C9_empty_encodings_witness :
  let h := snd (Index.update 1%positive (VString (js "hi"))
                  (snd (Index.new_Hasher empty_heap))) in
  In (plain []) [VNull; VUndefined; VArray []; plain []]
  /\ live_index h 1%positive
  /\ Index.encodeInputAsBytes (plain []) = Ok []
  /\ exists h',
       Index.update 1%positive (plain []) h = (Ok 1%positive, h')
       /\ fst (Index.getBytes 1%positive h') = fst (Index.getBytes 1%positive h)
       /\ fst (Index.digest (fun bs => bs) 1%positive h')
          = fst (Index.digest (fun bs => bs) 1%positive h).
Proof.
  assert (In (plain []) [VNull; VUndefined; VArray []; plain []]) as Hin
    by (simpl; auto).
  assert (live_index
            (snd (Index.update 1%positive (VString (js "hi"))
                    (snd (Index.new_Hasher empty_heap)))) 1%positive) as Hlive.
  { exists {| Index.buffer := 1%positive |}, [[104; 105]].
    split; vm_compute; reflexivity. }
  split; [exact Hin|]. split; [exact Hlive|].
  exact (C9_empty_encodings (fun bs => bs) _ _ _ Hin Hlive).
Defined.

(** The same four inputs in the file with an enum context. *)
Lemma Strict_empty_encodings (ctx : option context) (v : value) :
  In v [VNull; VUndefined; VArray []; plain []] ->
  Strict.encodeInputAsBytes ctx v = Ok [].
Proof.
  intros Hv. simpl in Hv. destruct Hv as [<-|[<-|[<-|[<-|[]]]]]; reflexivity.
Qed.

(** ** Arrays *)

(** C6 fails on the code: an array is an object with a [toString], so the
    test meant for BN objects sees it first. [["5"].toString()] is ["5"],
    all digits, and the array is encoded as the 64-bit integer 5; the
    encoding of its one element is the single byte of the text ["5"]. *)
Theorem C6_array_of_digit_string :
  let input := VArray [VString (js "5")] in
  Array_toString [VString (js "5")] = Ok (js "5")
  /\ Index.encodeInputAsBytes input = Ok [0; 0; 0; 0; 0; 0; 0; 5]
  /\ Strict.encodeInputAsBytes None input = Ok [0; 0; 0; 0; 0; 0; 0; 5]
  /\ sequence (map Index.encodeInputAsBytes [VString (js "5")]) = Ok [[53]]
  /\ Index.encodeInputAsBytes input <> Ok (concat [[53]]).
Proof.
  vm_compute. repeat split; discriminate.
Qed.

(** Where the string of the array is not all digits, the array is the
    concatenation of its elements. *)
Lemma Index_encode_array_elements (elements : list value) (str : jsstring)
  (chunks : list bytes) :
  Array_toString elements = Ok str ->
  JS.test_digits str = false ->
  sequence (map Index.encodeInputAsBytes elements) = Ok chunks ->
  Index.encodeInputAsBytes (VArray elements) = Ok (concat chunks).
Proof.
  intros Hstr Htest Hseq. rewrite Index_encode_array, Hstr. simpl.
  rewrite Htest, Hseq. reflexivity.
Qed.

(** ** Strings *)

Lemma radix16_hex_chars (c d : Z) :
  JS.radix_digit 16 c = Some d -> In c hex_chars.
Proof.
  unfold JS.radix_digit, JS.digit_val. intros H.
  assert ((48 <= c <= 57) \/ (97 <= c <= 102) \/ (65 <= c <= 70)) as Hrange.
  { destruct (Z.leb_spec 0x30 c), (Z.leb_spec c 0x39); simpl in H;
      try (left; lia);
      destruct (Z.leb_spec 0x61 c), (Z.leb_spec c 0x7A); simpl in H;
      try (destruct (Z.ltb_spec (c - 97 + 10) 16); [right; left; lia | discriminate]);
      destruct (Z.leb_spec 0x41 c), (Z.leb_spec c 0x5A); simpl in H;
      try discriminate;
      try (destruct (Z.ltb_spec (c - 65 + 10) 16); [right; right; lia | discriminate]). }
  unfold hex_chars. simpl. lia.
Qed.

Lemma parseInt_hex_table :
  forallb (fun c1 =>
    forallb (fun c2 =>
      option_Z_eqb (JS.parseInt [c1; c2] 16) (hex_pair c1 c2)
      && match hex_pair c1 c2 with
         | Some v => (0 <=? v) && (v <? 256)
         | None => false
         end) hex_chars) hex_chars = true.
Proof. vm_compute. reflexivity. Qed.

(** Two hexadecimal digits are read as their value, a byte. *)
Lemma parseInt_hex_pair (c1 c2 v : Z) :
  hex_pair c1 c2 = Some v ->
  JS.parseInt [c1; c2] 16 = Some v /\ 0 <= v < 256.
Proof.
  intros Hv.
  assert (In c1 hex_chars /\ In c2 hex_chars) as [H1 H2].
  { unfold hex_pair in Hv.
    destruct (JS.radix_digit 16 c1) eqn:E1; [|discriminate].
    destruct (JS.radix_digit 16 c2) eqn:E2; [|discriminate].
    split; eapply radix16_hex_chars; eassumption. }
  pose proof parseInt_hex_table as T.
  rewrite forallb_forall in T. specialize (T c1 H1).
  rewrite forallb_forall in T. specialize (T c2 H2).
  rewrite Hv in T. apply andb_prop in T as [Teq Trange].
  destruct (JS.parseInt [c1; c2] 16) as [p|]; simpl in Teq; [|discriminate].
  apply Z.eqb_eq in Teq. subst p.
  apply andb_prop in Trange as [Hlo Hhi].
  apply Z.leb_le in Hlo. apply Z.ltb_lt in Hhi. auto.
Qed.

Lemma substr_pair (hexStr : jsstring) (i : nat) (c1 c2 : Z) :
  hexStr !! (2 * i)%nat = Some c1 ->
  hexStr !! (2 * i + 1)%nat = Some c2 ->
  JS.substr hexStr (i * 2) 2 = [c1; c2].
Proof.
  intros H1 H2. unfold JS.substr.
  replace (i * 2)%nat with (2 * i)%nat by lia.
  rewrite <- (take_drop (2 * i) hexStr) in H1, H2.
  assert (length (take (2 * i) hexStr) = (2 * i)%nat) as Hlen.
  { apply length_take_le. apply lookup_lt_Some in H1.
    rewrite take_drop in H1. lia. }
  rewrite lookup_app_r in H1 by lia. rewrite lookup_app_r in H2 by lia.
  rewrite Hlen in H1, H2.
  replace (2 * i - 2 * i)%nat with 0%nat in H1 by lia.
  replace (2 * i + 1 - 2 * i)%nat with 1%nat in H2 by lia.
  destruct (drop (2 * i) hexStr) as [|x [|y rest]]; simplify_eq/=; reflexivity.
Qed.

Lemma decodeB256_length (s : jsstring) : length (decodeB256 s) = 32%nat.
Proof. unfold decodeB256. rewrite length_map, length_seq. reflexivity. Qed.

Lemma decodeB256_byte (s : jsstring) (i : nat) (c1 c2 v : Z) :
  (i < 32)%nat ->
  JS.slice s 2 !! (2 * i)%nat = Some c1 ->
  JS.slice s 2 !! (2 * i + 1)%nat = Some c2 ->
  hex_pair c1 c2 = Some v ->
  decodeB256 s !! i = Some v.
Proof.
  intros Hi H1 H2 Hv. unfold decodeB256.
  rewrite list_lookup_fmap.
  rewrite (lookup_seq_lt 0 32 i Hi).
  unfold fmap, option_fmap, option_map. cbv beta. rewrite Nat.add_0_l.
  rewrite (substr_pair _ i c1 c2 H1 H2).
  destruct (parseInt_hex_pair c1 c2 v Hv) as [-> Hrange]. simpl.
  rewrite Z.mod_small by exact Hrange. reflexivity.
Qed.

(** Text below U+0080 is its own encoding. *)
Lemma TextEncoder_ascii (s : jsstring) :
  Forall (fun c => 0 <= c < 0x80) s -> JS.TextEncoder_encode s = s.
Proof.
  induction 1 as [|c s Hc _ IH]; simpl; [reflexivity|].
  unfold JS.is_high_surrogate, JS.is_low_surrogate, JS.utf8_code_point.
  destruct (Z.leb_spec 0xD800 c); [lia|]. simpl.
  destruct (Z.leb_spec 0xDC00 c); [lia|]. simpl.
  destruct (Z.ltb_spec c 0x80); [|lia]. simpl. rewrite IH. reflexivity.
Qed.

(** ** [TextEncoder] writes UTF-8 *)

Lemma lor_table (mark : Z) (n : nat) :
  forallb (fun x => Z.lor mark x =? mark + x) (map Z.of_nat (seq 0 n)) = true ->
  forall x, 0 <= x < Z.of_nat n -> Z.lor mark x = mark + x.
Proof.
  intros T x Hx. rewrite forallb_forall in T. apply Z.eqb_eq, T.
  apply in_map_iff. exists (Z.to_nat x). split; [lia|]. apply in_seq. lia.
Qed.

Lemma lor_mark2 (x : Z) : 0 <= x < 32 -> Z.lor 0xC0 x = 192 + x.
Proof. apply (lor_table 0xC0 32). vm_compute. reflexivity. Qed.

Lemma lor_mark3 (x : Z) : 0 <= x < 16 -> Z.lor 0xE0 x = 224 + x.
Proof. apply (lor_table 0xE0 16). vm_compute. reflexivity. Qed.

Lemma lor_mark4 (x : Z) : 0 <= x < 8 -> Z.lor 0xF0 x = 240 + x.
Proof. apply (lor_table 0xF0 8). vm_compute. reflexivity. Qed.

Lemma lor_continuation (x : Z) : 0 <= x < 64 -> Z.lor 0x80 x = 128 + x.
Proof. apply (lor_table 0x80 64). vm_compute. reflexivity. Qed.

Lemma land_six (x : Z) : Z.land x 0x3F = x mod 64.
Proof. change 0x3F with (Z.ones 6). rewrite Z.land_ones by lia. reflexivity. Qed.

(** The shifts and masks of the encoder are the divisions of the table. *)
Lemma utf8_code_point_table (cp : Z) :
  0 <= cp < 0x110000 -> JS.utf8_code_point cp = utf8_of_scalar cp.
Proof.
  intros Hcp. unfold JS.utf8_code_point, utf8_of_scalar.
  rewrite !land_six, !Z.shiftr_div_pow2 by lia.
  change (2 ^ 6) with 64. change (2 ^ 12) with 4096. change (2 ^ 18) with 262144.
  destruct (Z.ltb_spec cp 0x80), (Z.leb_spec cp 0x7F); try lia; [reflexivity|].
  destruct (Z.ltb_spec cp 0x800), (Z.leb_spec cp 0x7FF); try lia.
  - rewrite lor_mark2, lor_continuation; [reflexivity | |].
    + apply Z.mod_pos_bound. lia.
    + split; [apply Z.div_pos; lia | apply Z.div_lt_upper_bound; lia].
  - destruct (Z.ltb_spec cp 0x10000), (Z.leb_spec cp 0xFFFF); try lia.
    + rewrite lor_mark3, !lor_continuation; [reflexivity | | | ].
      * apply Z.mod_pos_bound. lia.
      * apply Z.mod_pos_bound. lia.
      * split; [apply Z.div_pos; lia | apply Z.div_lt_upper_bound; lia].
    + rewrite lor_mark4, !lor_continuation; [reflexivity | | | | ].
      * apply Z.mod_pos_bound. lia.
      * apply Z.mod_pos_bound. lia.
      * apply Z.mod_pos_bound. lia.
      * split; [apply Z.div_pos; lia | apply Z.div_lt_upper_bound; lia].
Qed.

Lemma TextEncoder_utf8_length (n : nat) : forall s,
  (length s <= n)%nat -> code_units s ->
  JS.TextEncoder_encode s = utf8_of_string s
  /\ Forall is_scalar (scalar_values s).
Proof.
  unfold utf8_of_string, code_units, is_scalar.
  induction n as [|n IH]; intros s Hlen Hs.
  - destruct s; [simpl; auto | simpl in Hlen; lia].
  - destruct s as [|c rest]; [simpl; auto|].
    pose proof (Forall_inv Hs) as Hc. pose proof (Forall_inv_tail Hs) as Hrest.
    cbv beta in Hc.
    simpl in Hlen.
    destruct (IH rest ltac:(lia) Hrest) as [IHe IHs].
    cbn [JS.TextEncoder_encode scalar_values].
    unfold JS.is_high_surrogate, JS.is_low_surrogate.
    destruct rest as [|d rest'].
    + destruct (Z.leb_spec 0xD800 c), (Z.leb_spec c 0xDBFF), (Z.leb_spec 0xDC00 c),
        (Z.leb_spec c 0xDFFF), (Z.ltb_spec c 0xE000);
        cbn [andb map concat app]; try lia;
        rewrite ?app_nil_r; (split; [apply utf8_code_point_table; lia|]);
        (constructor; [cbv beta; lia | constructor]).
    + pose proof (Forall_inv Hrest) as Hd. cbv beta in Hd.
      pose proof (Forall_inv_tail Hrest) as Hrest'. simpl in Hlen.
      destruct (IH rest' ltac:(lia) Hrest') as [IHe' IHs'].
      destruct (Z.leb_spec 0xD800 c), (Z.leb_spec c 0xDBFF), (Z.leb_spec 0xDC00 c),
        (Z.leb_spec c 0xDFFF), (Z.ltb_spec c 0xE000), (Z.ltb_spec c 0xDC00),
        (Z.leb_spec 0xDC00 d), (Z.leb_spec d 0xDFFF), (Z.ltb_spec d 0xE000);
        cbn [andb map concat]; try lia;
        first [ rewrite IHe' | rewrite IHe ];
        rewrite ?(Z.mul_comm (c - 0xD800) 0x400);
        (split; [f_equal; apply utf8_code_point_table; lia|]);
        (constructor; [cbv beta; lia | assumption]).
Qed.

(** What [TextEncoder] returns is the UTF-8 form of the string. *)
Lemma TextEncoder_utf8 (s : jsstring) :
  code_units s -> JS.TextEncoder_encode s = utf8_of_string s.
Proof. intros Hs. apply (TextEncoder_utf8_length (length s) s); [lia | exact Hs]. Qed.

Lemma scalar_values_scalar (s : jsstring) :
  code_units s -> Forall is_scalar (scalar_values s).
Proof. intros Hs. apply (TextEncoder_utf8_length (length s) s); [lia | exact Hs]. Qed.

Lemma continuation_payload (x : Z) :
  0 <= x < 64 -> continuation (128 + x) = Some x.
Proof.
  intros Hx. unfold continuation.
  destruct (Z.leb_spec 128 (128 + x)); [|lia].
  destruct (Z.ltb_spec (128 + x) 192); [|lia].
  simpl. f_equal. lia.
Qed.

(** The decoder reads one encoded scalar value back and goes on. *)
Lemma utf8_decode_scalar (cp : Z) (rest : bytes) :
  is_scalar cp ->
  utf8_decode (utf8_of_scalar cp ++ rest) = option_map (cons cp) (utf8_decode rest).
Proof.
  intros Hcp. unfold is_scalar in Hcp. unfold utf8_of_scalar.
  pose proof (Z.mod_pos_bound cp 64 ltac:(lia)) as Hm0.
  pose proof (Z.mod_pos_bound (cp / 64) 64 ltac:(lia)) as Hm1.
  pose proof (Z.mod_pos_bound (cp / 4096) 64 ltac:(lia)) as Hm2.
  pose proof (Z.div_mod cp 64 ltac:(lia)) as Hd0.
  pose proof (Z.div_mod (cp / 64) 64 ltac:(lia)) as Hd1.
  pose proof (Z.div_mod (cp / 4096) 64 ltac:(lia)) as Hd2.
  assert (cp / 64 / 64 = cp / 4096) as Hq1 by (rewrite Z.div_div by lia; reflexivity).
  assert (cp / 4096 / 64 = cp / 262144) as Hq2 by (rewrite Z.div_div by lia; reflexivity).
  rewrite Hq1 in Hd1. rewrite Hq2 in Hd2.
  set (q1 := cp / 64) in *. set (q2 := cp / 4096) in *. set (q3 := cp / 262144) in *.
  set (m0 := cp mod 64) in *. set (m1 := q1 mod 64) in *. set (m2 := q2 mod 64) in *.
  destruct (Z.leb_spec cp 0x7F).
  - cbn [app utf8_decode].
    destruct (Z.leb_spec 0 cp); [|lia]. destruct (Z.ltb_spec cp 128); [|lia].
    reflexivity.
  - destruct (Z.leb_spec cp 0x7FF).
    + cbn [app utf8_decode]. rewrite continuation_payload by lia.
      destruct (Z.leb_spec 0 (192 + q1)); [|lia].
      destruct (Z.ltb_spec (192 + q1) 128); [lia|].
      destruct (Z.leb_spec 192 (192 + q1)); [|lia].
      destruct (Z.ltb_spec (192 + q1) 224); [|lia].
      cbn [andb].
      replace ((192 + q1 - 192) * 64 + m0) with cp by lia.
      destruct (Z.leb_spec 0x80 cp); [reflexivity | lia].
    + destruct (Z.leb_spec cp 0xFFFF).
      * cbn [app utf8_decode]. rewrite !continuation_payload by lia.
        destruct (Z.leb_spec 0 (224 + q2)); [|lia].
        destruct (Z.ltb_spec (224 + q2) 128); [lia|].
        destruct (Z.leb_spec 192 (224 + q2)); [|lia].
        destruct (Z.ltb_spec (224 + q2) 224); [lia|].
        destruct (Z.leb_spec 224 (224 + q2)); [|lia].
        destruct (Z.ltb_spec (224 + q2) 240); [|lia].
        cbn [andb].
        replace ((224 + q2 - 224) * 4096 + m1 * 64 + m0) with cp by lia.
        destruct (Z.leb_spec 0x800 cp); [|lia].
        destruct (Z.leb_spec 0xD800 cp), (Z.ltb_spec cp 0xE000);
          cbn [andb negb]; try reflexivity; lia.
      * cbn [app utf8_decode]. rewrite !continuation_payload by lia.
        destruct (Z.leb_spec 0 (240 + q3)); [|lia].
        destruct (Z.ltb_spec (240 + q3) 128); [lia|].
        destruct (Z.leb_spec 192 (240 + q3)); [|lia].
        destruct (Z.ltb_spec (240 + q3) 224); [lia|].
        destruct (Z.leb_spec 224 (240 + q3)); [|lia].
        destruct (Z.ltb_spec (240 + q3) 240); [lia|].
        destruct (Z.leb_spec 240 (240 + q3)); [|lia].
        destruct (Z.ltb_spec (240 + q3) 248); [|lia].
        cbn [andb].
        replace ((240 + q3 - 240) * 262144 + m2 * 4096 + m1 * 64 + m0) with cp by lia.
        destruct (Z.leb_spec 0x10000 cp); [|lia].
        destruct (Z.ltb_spec cp 0x110000); [reflexivity | lia].
Qed.

Lemma utf8_decode_scalars (cps : list Z) :
  Forall is_scalar cps ->
  utf8_decode (concat (map utf8_of_scalar cps)) = Some cps.
Proof.
  induction 1 as [|cp cps Hcp _ IH]; [reflexivity|].
  cbn [map concat]. rewrite (utf8_decode_scalar cp _ Hcp), IH. reflexivity.
Qed.

Lemma utf8_of_scalar_bytes (cp : Z) :
  is_scalar cp -> all_bytes (utf8_of_scalar cp).
Proof.
  intros Hcp. unfold is_scalar in Hcp. unfold utf8_of_scalar, all_bytes.
  pose proof (Z.mod_pos_bound cp 64 ltac:(lia)).
  pose proof (Z.mod_pos_bound (cp / 64) 64 ltac:(lia)).
  pose proof (Z.mod_pos_bound (cp / 4096) 64 ltac:(lia)).
  assert (0 <= cp / 64) by (apply Z.div_pos; lia).
  assert (0 <= cp / 4096) by (apply Z.div_pos; lia).
  assert (0 <= cp / 262144) by (apply Z.div_pos; lia).
  destruct (Z.leb_spec cp 0x7F); [repeat constructor; lia|].
  destruct (Z.leb_spec cp 0x7FF).
  { assert (cp / 64 < 32) by (apply Z.div_lt_upper_bound; lia).
    repeat constructor; lia. }
  destruct (Z.leb_spec cp 0xFFFF).
  { assert (cp / 4096 < 16) by (apply Z.div_lt_upper_bound; lia).
    repeat constructor; lia. }
  assert (cp / 262144 < 8) by (apply Z.div_lt_upper_bound; lia).
  repeat constructor; lia.
Qed.

Lemma utf8_of_string_bytes (s : jsstring) :
  code_units s -> all_bytes (utf8_of_string s).
Proof.
  intros Hs. unfold utf8_of_string, all_bytes.
  pose proof (scalar_values_scalar s Hs) as Hscalars.
  induction Hscalars as [|cp cps Hcp _ IH]; [constructor|].
  cbn [map concat]. apply Forall_app. split; [apply utf8_of_scalar_bytes, Hcp | exact IH].
Qed.

Lemma startsWith_0x (s : jsstring) :
  JS.startsWith s (js "0x") = true <-> exists body, s = 0x30 :: 0x78 :: body.
Proof.
  change (js "0x") with [0x30; 0x78]. split.
  - destruct s as [|c [|d body]]; cbn [JS.startsWith]; try discriminate.
    + rewrite andb_false_r. discriminate.
    + intros H. apply andb_prop in H as [Hc H]. apply andb_prop in H as [Hd _].
      apply Z.eqb_eq in Hc, Hd. subst. exists body. reflexivity.
  - intros [body ->]. destruct body; reflexivity.
Qed.

(** C3. A string that starts with [0x] and has 66 code units is returned
    as 32 bytes, byte [i] being the value of the hexadecimal digits at
    positions [2i] and [2i + 1] of the text after the prefix. Every other
    string is returned as its UTF-8 form and nothing else: the bytes are
    the RFC 3629 forms of its scalar values one after the other, they
    decode back to exactly those scalar values, and for text below U+0080
    they are the code units themselves. *)
Theorem C3_string_encoding (ctx : option context) (s : jsstring) :
  exists bs,
    Index.encodeInputAsBytes (VString s) = Ok bs
    /\ Strict.encodeInputAsBytes ctx (VString s) = Ok bs
    /\ (forall body,
           s = 0x30 :: 0x78 :: body -> length s = 66%nat ->
           length bs = 32%nat
           /\ forall (i : nat) (c1 c2 v : Z),
                (i < 32)%nat ->
                body !! (2 * i)%nat = Some c1 ->
                body !! (2 * i + 1)%nat = Some c2 ->
                hex_pair c1 c2 = Some v ->
                bs !! i = Some v)
    /\ (~ (exists body, s = 0x30 :: 0x78 :: body /\ length s = 66%nat) ->
        (code_units s ->
         bs = utf8_of_string s
         /\ utf8_decode bs = Some (scalar_values s)
         /\ all_bytes bs)
        /\ (Forall (fun c => 0 <= c < 0x80) s -> bs = s)).
Proof.
  exists (encodeString s). split; [reflexivity|]. split; [reflexivity|].
  split.
  - intros body Hs Hlen.
    assert (encodeString s = decodeB256 s) as ->.
    { unfold encodeString.
      rewrite (proj2 (startsWith_0x s) (ex_intro _ body Hs)), Hlen. reflexivity. }
    split; [apply decodeB256_length|].
    intros i c1 c2 v Hi H1 H2 Hv.
    apply (decodeB256_byte s i c1 c2 v Hi); [| | exact Hv].
    + rewrite Hs. exact H1.
    + rewrite Hs. exact H2.
  - intros Hnot.
    assert (encodeString s = JS.TextEncoder_encode s) as ->.
    { unfold encodeString.
      destruct (JS.startsWith s (js "0x")) eqn:Hprefix; [|reflexivity].
      destruct (Nat.eqb_spec (length s) 66) as [Hlen|Hlen]; [|reflexivity].
      exfalso. apply Hnot.
      destruct (proj1 (startsWith_0x s) Hprefix) as [body Hs].
      exists body. auto. }
    split.
    + intros Hunits. rewrite (TextEncoder_utf8 s Hunits).
      split; [reflexivity|]. split.
      * apply utf8_decode_scalars, scalar_values_scalar, Hunits.
      * apply utf8_of_string_bytes, Hunits.
    + intros Hascii. apply TextEncoder_ascii, Hascii.
Qed.

(** A 66-character hash, and a text with an accented letter, the euro
    sign, a pair of surrogates and a lone one. *)
Lemma C3_string_encoding_witness :
  let body := js "00ff101112131415161718191a1b1c1d1e1f202122232425262728292a2b2cAB" in
  let hash := 0x30 :: 0x78 :: body in
  let text := [0x68; 0xE9; 0x20AC; 0xD83D; 0xDE00; 0xD800] in
  length hash = 66%nat
  /\ (exists bs,
        Index.encodeInputAsBytes (VString hash) = Ok bs
        /\ length bs = 32%nat /\ bs !! 1%nat = Some 255 /\ bs !! 31%nat = Some 171)
  /\ ~ (exists body', text = 0x30 :: 0x78 :: body' /\ length text = 66%nat)
  /\ code_units text
  /\ (exists bs,
        Index.encodeInputAsBytes (VString text) = Ok bs
        /\ bs = [0x68; 0xC3; 0xA9; 0xE2; 0x82; 0xAC; 0xF0; 0x9F; 0x98; 0x80;
                 0xEF; 0xBF; 0xBD]
        /\ utf8_decode bs = Some [0x68; 0xE9; 0x20AC; 0x1F600; 0xFFFD]).
Proof.
  set (body := js "00ff101112131415161718191a1b1c1d1e1f202122232425262728292a2b2cAB").
  set (hash := 0x30 :: 0x78 :: body).
  set (text := [0x68; 0xE9; 0x20AC; 0xD83D; 0xDE00; 0xD800]).
  assert (length hash = 66%nat) as Hlen by reflexivity.
  assert (~ (exists body', text = 0x30 :: 0x78 :: body' /\ length text = 66%nat))
    as Htext by (intros (body' & _ & H); vm_compute in H; discriminate).
  assert (code_units text) as Hunits by (repeat constructor; lia).
  split; [exact Hlen|]. split; [|split; [exact Htext|split; [exact Hunits|]]].
  - destruct (C3_string_encoding None hash) as (bs & Hindex & _ & Hhex & _).
    destruct (Hhex body eq_refl Hlen) as [Hlen32 Hbyte].
    exists bs. split; [exact Hindex|]. split; [exact Hlen32|]. split.
    + apply (Hbyte 1%nat 0x66 0x66 255); [lia | reflexivity | reflexivity | reflexivity].
    + apply (Hbyte 31%nat 0x41 0x42 171); [lia | reflexivity | reflexivity | reflexivity].
  - destruct (C3_string_encoding None text) as (bs & Hindex & _ & _ & Hraw).
    destruct (Hraw Htext) as [Hutf8 _].
    destruct (Hutf8 Hunits) as (Hbs & Hdecode & _).
    exists bs. split; [exact Hindex|]. split; [exact Hbs|]. exact Hdecode.
Defined.

(** ** Enums *)

Lemma upper_start_not_elements (key : jsstring) :
  JS.test_upper_start key = true -> key <> js "elements".
Proof. intros H ->. vm_compute in H. discriminate. Qed.

(** The enum branch of the file with an enum context, for an object with
    one key that starts with an upper-case letter. *)
Lemma Strict_encode_enum (ctx : option context) (toString : option jsstring)
  (key : jsstring) (v : value) :
  JS.test_upper_start key = true ->
  bn_digits toString = None ->
  Strict.encodeInputAsBytes ctx (VObject toString [(key, v)]) =
  match
    match ctx with
    | Some entries => Strict.findVariant entries key
    | None => None
    end
  with
  | None => Throw (VariantNotFound key)
  | Some d =>
      let* inner := Strict.encodeInputAsBytes ctx v in
      Ok (d mod 256 :: inner)
  end.
Proof.
  intros Hupper Hbn.
  pose proof (upper_start_not_elements key Hupper) as Hne.
  cbn [Strict.encodeInputAsBytes map fst snd get List.filter].
  rewrite Hbn, Hupper.
  destruct (decide (key = js "elements")) as [Heq|_]; [contradiction|].
  destruct (decide (key = key)) as [_|Hbad]; [|contradiction].
  destruct (match ctx with Some entries => Strict.findVariant entries key | None => None end)
    as [d|]; [|reflexivity].
  destruct (Strict.encodeInputAsBytes ctx v) as [inner|e]; [|reflexivity].
  cbn [bind JS.ToUint8]. apply enum_layout.
Qed.

(** The enum branch of [src/index.ts]. *)
Lemma Index_encode_enum (toString : option jsstring) (key : jsstring) (v : value) :
  JS.test_upper_start key = true ->
  bn_digits toString = None ->
  Index.encodeInputAsBytes (VObject toString [(key, v)]) =
  let* inner := Index.encodeInputAsBytes v in
  Ok (JS.ToUint8 (Index.getEnumDiscriminant key) :: inner).
Proof.
  intros Hupper Hbn.
  pose proof (upper_start_not_elements key Hupper) as Hne.
  cbn [Index.encodeInputAsBytes map fst snd get List.filter].
  rewrite Hbn, Hupper.
  destruct (decide (key = js "elements")) as [Heq|_]; [contradiction|].
  destruct (decide (key = key)) as [_|Hbad]; [|contradiction].
  destruct (Index.encodeInputAsBytes v) as [inner|e]; [|reflexivity].
  cbn [bind]. apply enum_layout.
Qed.

Lemma indexOf_from_spec (variants : list jsstring) (key : jsstring) :
  forall start,
  Strict.includes variants key = true ->
  exists i : nat,
    Strict.indexOf_from start variants key = start + Z.of_nat i
    /\ variants !! i = Some key
    /\ forall j, (j < i)%nat -> variants !! j <> Some key.
Proof.
  induction variants as [|x variants IH]; intros start Hin; simpl in *.
  - discriminate.
  - destruct (bool_decide_reflect (x = key)) as [->|Hne].
    + exists 0%nat. split; [lia|]. split; [reflexivity|]. intros j Hj. lia.
    + simpl in Hin. destruct (IH (start + 1) Hin) as (i & Hidx & Hat & Hfirst).
      exists (S i). split; [lia|]. split; [exact Hat|].
      intros [|j] Hj; simpl.
      * congruence.
      * apply Hfirst. lia.
Qed.

(** The entry that decides: the first whose list includes the name. *)
Lemma findVariant_first (before after : context) (enumName : jsstring)
  (variants : list jsstring) (key : jsstring) :
  Forall (fun entry => Strict.includes (snd entry) key = false) before ->
  Strict.includes variants key = true ->
  Strict.findVariant (before ++ (enumName, variants) :: after) key
  = Some (Strict.indexOf variants key).
Proof.
  induction 1 as [|[name vs] before Hentry _ IH]; intros Hin; simpl in *.
  - rewrite Hin. reflexivity.
  - rewrite Hentry. apply IH, Hin.
Qed.

Lemma findVariant_nonneg (entries : context) (key : jsstring) (d : Z) :
  Strict.findVariant entries key = Some d -> 0 <= d.
Proof.
  induction entries as [|[name vs] entries IH]; simpl; [discriminate|].
  destruct (Strict.includes vs key) eqn:Hin; [|exact IH].
  intros [= <-].
  destruct (indexOf_from_spec vs key 0 Hin) as (i & Hidx & _).
  unfold Strict.indexOf. lia.
Qed.

(** C4, as stated, fails on the code: a byte cannot equal an index above
    255. With the 257 variants [V0 .. V256] and the value [{V256: 5}] the
    index is 256 and the byte written is 0. *)
Lemma C4_counterexample :
  let variants := numbered_variants 257 in
  let key := js "V256" in
  let input := plain [(key, VNumber (Number.of_Z 5))] in
  JS.test_upper_start key = true
  /\ Strict.includes variants key = true
  /\ Strict.indexOf variants key = 256
  /\ Strict.encodeInputAsBytes (Some [(js "Wide", variants)]) input
     = Ok [0; 0; 0; 0; 0; 0; 0; 0; 5]
  /\ Strict.encodeInputAsBytes (Some [(js "Wide", variants)]) input
     <> Ok (256 :: [0; 0; 0; 0; 0; 0; 0; 5]).
Proof.
  vm_compute. repeat split; discriminate.
Qed.

(** C4 (amended). For an object with one key, which starts with an
    upper-case letter, and whose own [toString()] is not all digits (any
    object literal), under a context with an entry whose list includes the
    key: the bytes are one byte, the position of the key's first
    occurrence in the list of the first such entry, reduced modulo 256,
    followed by the encoding of the inner value under the same context
    (or the exception that encoding throws). [{Activate: 5}] under
    [{Kind: ["Activate", "SendFleet"]}] gives [0x00] and the eight bytes
    of 5. *)
Theorem C4_enum_discriminant :
  (forall (before after : context) (enumName : jsstring)
          (variants : list jsstring) (toString : option jsstring)
          (key : jsstring) (v : value),
      JS.test_upper_start key = true ->
      bn_digits toString = None ->
      Forall (fun entry => Strict.includes (snd entry) key = false) before ->
      Strict.includes variants key = true ->
      let ctx := Some (before ++ (enumName, variants) :: after) in
      exists i : nat,
        variants !! i = Some key
        /\ (forall j, (j < i)%nat -> variants !! j <> Some key)
        /\ Strict.encodeInputAsBytes ctx (VObject toString [(key, v)])
           = let* inner := Strict.encodeInputAsBytes ctx v in
             Ok (Z.of_nat i mod 256 :: inner))
  /\ Strict.encodeInputAsBytes
       (Some [(js "Kind", [js "Activate"; js "SendFleet"])])
       (plain [(js "Activate", VNumber (Number.of_Z 5))])
     = Ok [0x00; 0; 0; 0; 0; 0; 0; 0; 5].
Proof.
  split; [|reflexivity].
  intros before after enumName variants toString key v Hupper Hbn Hbefore Hin ctx.
  destruct (indexOf_from_spec variants key 0 Hin) as (i & Hidx & Hat & Hfirst).
  exists i. split; [exact Hat|]. split; [exact Hfirst|].
  unfold ctx. rewrite (Strict_encode_enum _ _ _ _ Hupper Hbn).
  rewrite (findVariant_first before after enumName variants key Hbefore Hin).
  unfold Strict.indexOf. rewrite Hidx. reflexivity.
Qed.

(** [{SendFleet: true}] under a context whose second entry lists it. *)
Lemma C4_enum_discriminant_witness :
  let key := js "SendFleet" in
  let variants := [js "Activate"; js "SendFleet"] in
  let ctx := Some ([(js "Other", [js "A"])] ++ (js "Kind", variants) :: []) in
  JS.test_upper_start key = true
  /\ bn_digits (Some (js "[object Object]")) = None
  /\ Forall (fun entry => Strict.includes (snd entry) key = false) [(js "Other", [js "A"])]
  /\ Strict.includes variants key = true
  /\ exists i : nat,
       variants !! i = Some key
       /\ Strict.encodeInputAsBytes ctx (plain [(key, VBoolean true)])
          = let* inner := Strict.encodeInputAsBytes ctx (VBoolean true) in
            Ok (Z.of_nat i mod 256 :: inner).
Proof.
  assert (Forall (fun entry => Strict.includes (snd entry) (js "SendFleet") = false)
                 [(js "Other", [js "A"])]) as Hbefore
    by (repeat constructor).
  split; [reflexivity|]. split; [reflexivity|]. split; [exact Hbefore|].
  split; [reflexivity|].
  destruct (proj1 C4_enum_discriminant [(js "Other", [js "A"])] [] (js "Kind")
              [js "Activate"; js "SendFleet"] (Some (js "[object Object]"))
              (js "SendFleet") (VBoolean true)
              eq_refl eq_refl Hbefore eq_refl) as (i & Hat & _ & Henc).
  exists i. split; [exact Hat | exact Henc].
Defined.

(** C5, as stated, fails on the code: nothing compares the discriminant
    with 255. With the 300 variants [V0 .. V299] and the value
    [{V299: true}] the index is 299 and the encoder returns the byte
    43 = 299 - 256 followed by the byte of [true]. *)
Lemma C5_counterexample :
  let variants := numbered_variants 300 in
  let key := js "V299" in
  let input := plain [(key, VBoolean true)] in
  Strict.findVariant [(js "Wide", variants)] key = Some 299
  /\ Strict.encodeInputAsBytes (Some [(js "Wide", variants)]) input = Ok [43; 1].
Proof.
  vm_compute. split; reflexivity.
Qed.

Lemma get_In {A} (key : jsstring) (fields : list (jsstring * A)) (a : A) :
  get key fields = Some a -> In a (map snd fields).
Proof.
  induction fields as [|[k x] fields IH]; simpl; [discriminate|].
  destruct (decide (k = key)); [intros [= ->]; auto | auto].
Qed.

(** What [getEnumDiscriminant] returns for a key of the enum branch. *)
Lemma getEnumDiscriminant_range (key : jsstring) :
  JS.test_upper_start key = true ->
  exists d, Index.getEnumDiscriminant key = Some d /\ 0 <= d < 256.
Proof.
  intros Hupper. unfold Index.getEnumDiscriminant.
  destruct (get key Index.knownVariants) as [index|] eqn:Hget.
  - exists index. split; [reflexivity|].
    apply get_In in Hget. simpl in Hget. lia.
  - destruct (bool_decide_reflect (key ∈ Index.Object_prototype_names)) as [Hin|_].
    + exfalso. apply list_elem_of_In in Hin. simpl in Hin.
      repeat (destruct Hin as [<-|Hin]; [vm_compute in Hupper; discriminate|]).
      exact Hin.
    + eexists. split; [reflexivity|]. apply Z.mod_pos_bound. lia.
Qed.

(** C5 (amended). No discriminant makes the encoder fail. In the file with
    an enum context the byte written is the resolved index modulo 256: the
    index itself up to 255, and a wrapped value above. In [src/index.ts]
    the discriminant is always between 0 and 255 and is the byte
    written. *)
Theorem C5_discriminant_byte (toString : option jsstring) (key : jsstring)
  (v : value) :
  JS.test_upper_start key = true ->
  bn_digits toString = None ->
  (forall (entries : context) (d : Z) (inner : bytes),
      Strict.findVariant entries key = Some d ->
      Strict.encodeInputAsBytes (Some entries) v = Ok inner ->
      Strict.encodeInputAsBytes (Some entries) (VObject toString [(key, v)])
        = Ok (d mod 256 :: inner)
      /\ 0 <= d
      /\ 0 <= d mod 256 < 256
      /\ (d <= 255 -> d mod 256 = d))
  /\ (forall inner : bytes,
         Index.encodeInputAsBytes v = Ok inner ->
         exists d,
           Index.getEnumDiscriminant key = Some d
           /\ 0 <= d < 256
           /\ Index.encodeInputAsBytes (VObject toString [(key, v)]) = Ok (d :: inner)).
Proof.
  intros Hupper Hbn. split.
  - intros entries d inner Hfind Hinner.
    rewrite (Strict_encode_enum _ _ _ _ Hupper Hbn), Hfind, Hinner.
    pose proof (findVariant_nonneg entries key d Hfind) as Hd.
    split; [reflexivity|]. split; [exact Hd|].
    split; [apply Z.mod_pos_bound; lia|].
    intros Hsmall. apply Z.mod_small. lia.
  - intros inner Hinner.
    destruct (getEnumDiscriminant_range key Hupper) as (d & Hd & Hrange).
    exists d. split; [exact Hd|]. split; [exact Hrange|].
    rewrite (Index_encode_enum _ _ _ Hupper Hbn), Hinner, Hd. simpl.
    rewrite Z.mod_small by exact Hrange. reflexivity.
Qed.

(** The key at index 299 of 300 variants. *)
Lemma C5_discriminant_byte_witness :
  let key := js "V299" in
  let v := VBoolean true in
  let entries := [(js "Wide", numbered_variants 300)] in
  JS.test_upper_start key = true
  /\ bn_digits (Some (js "[object Object]")) = None
  /\ Strict.findVariant entries key = Some 299
  /\ Strict.encodeInputAsBytes (Some entries) v = Ok [1]
  /\ Strict.encodeInputAsBytes (Some entries) (plain [(key, v)])
     = Ok (299 mod 256 :: [1])
  /\ Index.encodeInputAsBytes v = Ok [1]
  /\ exists d,
       Index.getEnumDiscriminant key = Some d
       /\ 0 <= d < 256
       /\ Index.encodeInputAsBytes (plain [(key, v)]) = Ok (d :: [1]).
Proof.
  assert (Strict.findVariant [(js "Wide", numbered_variants 300)] (js "V299") = Some 299)
    as Hfind by (vm_compute; reflexivity).
  pose proof (C5_discriminant_byte (Some (js "[object Object]")) (js "V299")
                (VBoolean true) eq_refl eq_refl) as [Hstrict Hindex].
  split; [reflexivity|]. split; [reflexivity|]. split; [exact Hfind|].
  split; [reflexivity|].
  split; [exact (proj1 (Hstrict _ 299 [1] Hfind eq_refl))|].
  split; [reflexivity|].
  exact (Hindex [1] eq_refl).
Defined.

(** ** Decimal strings *)

Lemma radix_digit_10 (c : Z) :
  JS.radix_digit 10 c = if JS.is_digit c then Some (c - 0x30) else None.
Proof.
  unfold JS.radix_digit, JS.digit_val, JS.is_digit.
  destruct (Z.leb_spec 0x30 c), (Z.leb_spec c 0x39); simpl;
    try (destruct (Z.ltb_spec (c - 48) 10); [reflexivity | lia]);
    destruct (Z.leb_spec 0x61 c), (Z.leb_spec c 0x7A); simpl;
    try (destruct (Z.ltb_spec (c - 97 + 10) 10); [lia | reflexivity]);
    destruct (Z.leb_spec 0x41 c), (Z.leb_spec c 0x5A); simpl;
    try (destruct (Z.ltb_spec (c - 65 + 10) 10); [lia | reflexivity]);
    reflexivity.
Qed.

Lemma parse_digits_app (R acc : Z) (l1 l2 : jsstring) :
  JS.parse_digits R acc (l1 ++ l2) =
  match JS.parse_digits R acc l1 with
  | Some a => JS.parse_digits R a l2
  | None => None
  end.
Proof.
  revert acc. induction l1 as [|c l1 IH]; intros acc; simpl; [reflexivity|].
  destruct (JS.radix_digit R c); [apply IH | reflexivity].
Qed.

Lemma parse_digits_zeros (m : nat) (acc : Z) :
  JS.parse_digits 10 acc (repeat 0x30 m) = Some (acc * 10 ^ Z.of_nat m).
Proof.
  revert acc. induction m as [|m IH]; intros acc.
  - simpl. f_equal. lia.
  - cbn [repeat JS.parse_digits]. rewrite radix_digit_10. simpl.
    rewrite IH. f_equal. rewrite Nat2Z.inj_succ, Z.pow_succ_r by lia. lia.
Qed.

Lemma parse_digits_non_digit (l : jsstring) (acc : Z) :
  Exists (fun c => JS.is_digit c = false) l -> JS.parse_digits 10 acc l = None.
Proof.
  intros H. revert acc. induction H as [c l Hc|c l _ IH]; intros acc; simpl;
    rewrite radix_digit_10.
  - rewrite Hc. reflexivity.
  - destruct (JS.is_digit c); [apply IH | reflexivity].
Qed.

Lemma digits_fuel_parse (fuel : nat) : forall n acc,
  0 <= n < 2 ^ Z.of_nat fuel ->
  JS.parse_digits 10 acc (JS.digits_fuel fuel n)
  = Some (acc * 10 ^ Z.of_nat (length (JS.digits_fuel fuel n)) + n).
Proof.
  induction fuel as [|fuel IH]; intros n acc Hn.
  - simpl in *. f_equal. lia.
  - cbn [JS.digits_fuel]. destruct (Z.ltb_spec n 10) as [Hsmall|Hbig].
    + cbn [JS.parse_digits]. rewrite radix_digit_10.
      unfold JS.is_digit.
      destruct (Z.leb_spec 0x30 (0x30 + n)); [|lia].
      destruct (Z.leb_spec (0x30 + n) 0x39); [|lia].
      simpl. f_equal. lia.
    + rewrite parse_digits_app.
      assert (0 <= n / 10 < 2 ^ Z.of_nat fuel) as Hdiv.
      { rewrite Nat2Z.inj_succ, Z.pow_succ_r in Hn by lia.
        split; [apply Z.div_pos; lia|].
        apply Z.div_lt_upper_bound; lia. }
      rewrite (IH _ acc Hdiv).
      cbn [JS.parse_digits]. rewrite radix_digit_10.
      pose proof (Z.mod_pos_bound n 10 ltac:(lia)) as Hmod.
      unfold JS.is_digit.
      destruct (Z.leb_spec 0x30 (0x30 + n mod 10)); [|lia].
      destruct (Z.leb_spec (0x30 + n mod 10) 0x39); [|lia].
      simpl. f_equal.
      rewrite length_app. simpl.
      rewrite Nat2Z.inj_add. simpl Z.of_nat.
      rewrite Z.pow_add_r by lia.
      pose proof (Z.div_mod n 10 ltac:(lia)). nia.
Qed.

Lemma digits_fuel_digits (fuel : nat) : forall n,
  0 <= n -> Forall (fun c => JS.is_digit c = true) (JS.digits_fuel fuel n).
Proof.
  induction fuel as [|fuel IH]; intros n Hn; simpl; [constructor|].
  destruct (Z.ltb_spec n 10) as [Hsmall|Hbig].
  - constructor; [|constructor]. unfold JS.is_digit.
    destruct (Z.leb_spec 0x30 (0x30 + n)); [|lia].
    destruct (Z.leb_spec (0x30 + n) 0x39); [reflexivity|lia].
  - apply Forall_app. split; [apply IH, Z.div_pos; lia|].
    pose proof (Z.mod_pos_bound n 10 ltac:(lia)) as Hmod.
    constructor; [|constructor]. unfold JS.is_digit.
    destruct (Z.leb_spec 0x30 (0x30 + n mod 10)); [|lia].
    destruct (Z.leb_spec (0x30 + n mod 10) 0x39); [reflexivity|lia].
Qed.

Lemma decimal_fuel (n : Z) :
  0 <= n -> 0 <= n < 2 ^ Z.of_nat (S (Z.to_nat (Z.log2 n))).
Proof.
  intros Hn. split; [exact Hn|].
  rewrite Nat2Z.inj_succ, Z2Nat.id by apply Z.log2_nonneg.
  destruct (Z.eq_dec n 0) as [->|Hnz]; [reflexivity|].
  apply Z.log2_spec. lia.
Qed.

(** The decimal string of a non-negative integer reads back as it. *)
Lemma decimal_parse (n acc : Z) :
  0 <= n ->
  JS.parse_digits 10 acc (JS.decimal n)
  = Some (acc * 10 ^ JS.num_digits n + n).
Proof.
  intros Hn. unfold JS.num_digits, JS.decimal.
  apply digits_fuel_parse, decimal_fuel, Hn.
Qed.

Lemma decimal_digits (n : Z) :
  0 <= n -> Forall (fun c => JS.is_digit c = true) (JS.decimal n).
Proof. intros Hn. apply digits_fuel_digits, Hn. Qed.

Lemma decimal_nonempty (n : Z) : JS.decimal n <> [].
Proof.
  unfold JS.decimal. cbn [JS.digits_fuel].
  destruct (n <? 10); [discriminate|].
  intros H. apply app_eq_nil in H as [_ H]. discriminate.
Qed.

(** ** [BigInt] on the strings the encoder passes *)

Lemma drop_while_id {A} (p : A -> bool) (l : list A) :
  Forall (fun x => p x = false) l -> JS.drop_while p l = l.
Proof. intros H. destruct H as [|x l Hx _]; simpl; [|rewrite Hx]; reflexivity. Qed.

Lemma trim_id (t : jsstring) :
  Forall (fun c => JS.is_white_space c = false) t -> JS.trim t = t.
Proof.
  intros H. unfold JS.trim. rewrite (drop_while_id _ t H).
  rewrite drop_while_id; [apply rev_involutive|].
  apply Forall_rev, H.
Qed.

Lemma number_char_facts (c : Z) :
  is_number_char c = true ->
  JS.is_white_space c = false
  /\ (c =? 0x78) = false /\ (c =? 0x58) = false
  /\ (c =? 0x6F) = false /\ (c =? 0x4F) = false
  /\ (c =? 0x62) = false /\ (c =? 0x42) = false.
Proof.
  unfold is_number_char, JS.is_digit, JS.is_white_space. intros H.
  assert (48 <= c <= 57 \/ c = 46 \/ c = 101 \/ c = 43 \/ c = 45) as Hc.
  { destruct (Z.leb_spec 0x30 c), (Z.leb_spec c 0x39),
      (Z.eqb_spec c 0x2E), (Z.eqb_spec c 0x65), (Z.eqb_spec c 0x2B),
      (Z.eqb_spec c 0x2D); simpl in H; try discriminate; lia. }
  repeat split;
    repeat match goal with
           | |- context [?a =? ?b] => destruct (Z.eqb_spec a b); [lia|]
           | |- context [?a <=? ?b] => destruct (Z.leb_spec a b)
           end; simpl; try reflexivity; lia.
Qed.

Lemma digit_is_number_char (c : Z) :
  JS.is_digit c = true -> is_number_char c = true.
Proof. unfold is_number_char. intros ->. reflexivity. Qed.

Lemma digit_not_sign (c : Z) :
  JS.is_digit c = true -> (c =? 0x2B) = false /\ (c =? 0x2D) = false.
Proof.
  unfold JS.is_digit. intros H.
  destruct (Z.leb_spec 0x30 c), (Z.leb_spec c 0x39); try discriminate.
  split; apply Z.eqb_neq; lia.
Qed.

(** A string of number characters that starts with a digit is read as a
    decimal literal, or not at all. *)
Lemma StringToBigInt_unsigned (c : Z) (rest : jsstring) :
  JS.is_digit c = true ->
  Forall (fun x => is_number_char x = true) rest ->
  JS.StringToBigInt (c :: rest) = JS.parse_digits 10 0 (c :: rest).
Proof.
  intros Hc Hrest. unfold JS.StringToBigInt.
  rewrite trim_id.
  2:{ constructor.
      - apply number_char_facts, digit_is_number_char, Hc.
      - eapply Forall_impl; [exact Hrest|]. intros x Hx. apply number_char_facts, Hx. }
  destruct (digit_not_sign c Hc) as [-> ->].
  destruct rest as [|p body]; [reflexivity|].
  apply Forall_inv in Hrest.
  destruct (number_char_facts p Hrest) as (_ & -> & -> & -> & -> & -> & ->).
  rewrite !andb_false_r. reflexivity.
Qed.

Lemma StringToBigInt_negative (c : Z) (rest : jsstring) :
  JS.is_digit c = true ->
  Forall (fun x => is_number_char x = true) rest ->
  JS.StringToBigInt (0x2D :: c :: rest)
  = option_map Z.opp (JS.parse_digits 10 0 (c :: rest)).
Proof.
  intros Hc Hrest. unfold JS.StringToBigInt.
  rewrite trim_id.
  2:{ constructor; [reflexivity|]. constructor.
      - apply number_char_facts, digit_is_number_char, Hc.
      - eapply Forall_impl; [exact Hrest|]. intros x Hx. apply number_char_facts, Hx. }
  reflexivity.
Qed.

(** ** The eight bytes *)

Lemma setBigUint64_be_length (v : Z) : length (JS.setBigUint64_be v) = 8%nat.
Proof. reflexivity. Qed.

Lemma setBigUint64_be_bytes (v : Z) : all_bytes (JS.setBigUint64_be v).
Proof.
  unfold all_bytes, JS.setBigUint64_be.
  apply Forall_map, Forall_forall. intros shift _.
  change 0xFF with (Z.ones 8). rewrite Z.land_ones by lia.
  apply Z.mod_pos_bound. lia.
Qed.

(** Read most significant byte first, the eight bytes are [v] modulo
    2^64. *)
Lemma setBigUint64_be_value (v : Z) :
  be_value (JS.setBigUint64_be v) = v mod 2 ^ 64.
Proof.
  unfold be_value, JS.setBigUint64_be.
  pose proof (Z.mod_pos_bound v (2 ^ 64) ltac:(lia)) as Hu.
  set (u := v mod 2 ^ 64) in *. clearbody u.
  cbn [map fold_left].
  change 0xFF with (Z.ones 8).
  rewrite !Z.land_ones by lia.
  rewrite !Z.shiftr_div_pow2 by lia.
  change (2 ^ 56) with 72057594037927936.
  change (2 ^ 48) with 281474976710656.
  change (2 ^ 40) with 1099511627776.
  change (2 ^ 32) with 4294967296.
  change (2 ^ 24) with 16777216.
  change (2 ^ 16) with 65536.
  change (2 ^ 8) with 256.
  change (2 ^ 0) with 1.
  change (2 ^ 64) with 18446744073709551616 in Hu.
  Z.div_mod_to_equations. lia.
Qed.

Lemma encodeU64_BigInt_toString (z : Z) :
  encodeU64 (JS.BigInt_toString z) = Ok (JS.setBigUint64_be z).
Proof.
  unfold encodeU64, JS.BigInt, JS.BigInt_toString.
  destruct (Z.ltb_spec z 0) as [Hneg|Hpos].
  - pose proof (decimal_digits (- z) ltac:(lia)) as Hds.
    pose proof (decimal_parse (- z) 0 ltac:(lia)) as Hparse.
    destruct (JS.decimal (- z)) as [|c rest] eqn:E;
      [exfalso; eapply decimal_nonempty; eassumption|].
    change (js "-" ++ c :: rest) with (0x2D :: c :: rest).
    rewrite StringToBigInt_negative.
    + rewrite Hparse. simpl. do 2 f_equal. lia.
    + exact (Forall_inv Hds).
    + eapply Forall_impl; [exact (Forall_inv_tail Hds)|].
      intros x Hx. apply digit_is_number_char, Hx.
  - pose proof (decimal_digits z Hpos) as Hds.
    pose proof (decimal_parse z 0 Hpos) as Hparse.
    destruct (JS.decimal z) as [|c rest] eqn:E;
      [exfalso; eapply decimal_nonempty; eassumption|].
    rewrite StringToBigInt_unsigned.
    + rewrite Hparse. reflexivity.
    + exact (Forall_inv Hds).
    + eapply Forall_impl; [exact (Forall_inv_tail Hds)|].
      intros x Hx. apply digit_is_number_char, Hx.
Qed.

(** ** Numbers through [toString] and [BigInt] *)

Lemma digits_number_chars (l : jsstring) :
  Forall (fun c => JS.is_digit c = true) l ->
  Forall (fun c => is_number_char c = true) l.
Proof.
  intros H. eapply Forall_impl; [exact H|]. intros x. apply digit_is_number_char.
Qed.

Lemma zeros_digits (m : nat) : Forall (fun c => JS.is_digit c = true) (repeat 0x30 m).
Proof. induction m; simpl; constructor; auto. Qed.

(** A digit string with an optional minus sign is read as its value. *)
Lemma encodeU64_digits (negative : bool) (ds : jsstring) (v : Z) :
  ds <> [] ->
  Forall (fun c => JS.is_digit c = true) ds ->
  JS.parse_digits 10 0 ds = Some v ->
  encodeU64 ((if negative then js "-" else []) ++ ds)
  = Ok (JS.setBigUint64_be (if negative then - v else v)).
Proof.
  intros Hne Hds Hparse. unfold encodeU64, JS.BigInt.
  destruct ds as [|c rest]; [contradiction|].
  pose proof (Forall_inv Hds) as Hc.
  pose proof (digits_number_chars _ (Forall_inv_tail Hds)) as Hrest.
  destruct negative.
  - change (js "-" ++ c :: rest) with (0x2D :: c :: rest).
    rewrite (StringToBigInt_negative c rest Hc Hrest), Hparse. reflexivity.
  - change ([] ++ c :: rest) with (c :: rest).
    rewrite (StringToBigInt_unsigned c rest Hc Hrest), Hparse. reflexivity.
Qed.

(** Digits, then a character that is no digit: not an integer literal. *)
Lemma encodeU64_not_integer (negative : bool) (pre post : jsstring) (x : Z) :
  pre <> [] ->
  Forall (fun c => JS.is_digit c = true) pre ->
  is_number_char x = true ->
  JS.is_digit x = false ->
  Forall (fun c => is_number_char c = true) post ->
  encodeU64 ((if negative then js "-" else []) ++ pre ++ x :: post)
  = Throw SyntaxError.
Proof.
  intros Hne Hpre Hx Hnd Hpost. unfold encodeU64, JS.BigInt.
  destruct pre as [|c pre']; [contradiction|].
  pose proof (Forall_inv Hpre) as Hc.
  assert (Forall (fun c => is_number_char c = true) (pre' ++ x :: post)) as Hrest.
  { apply Forall_app. split; [apply digits_number_chars, (Forall_inv_tail Hpre)|].
    constructor; assumption. }
  assert (JS.parse_digits 10 0 ((c :: pre') ++ x :: post) = None) as Hparse.
  { apply parse_digits_non_digit. apply Exists_app. right. constructor. exact Hnd. }
  destruct negative.
  - change (js "-" ++ (c :: pre') ++ x :: post) with (0x2D :: c :: pre' ++ x :: post).
    rewrite (StringToBigInt_negative c _ Hc Hrest).
    change (c :: pre' ++ x :: post) with ((c :: pre') ++ x :: post).
    rewrite Hparse. reflexivity.
  - change ([] ++ (c :: pre') ++ x :: post) with (c :: pre' ++ x :: post).
    rewrite (StringToBigInt_unsigned c _ Hc Hrest).
    change (c :: pre' ++ x :: post) with ((c :: pre') ++ x :: post).
    rewrite Hparse. reflexivity.
Qed.

Lemma exponent_part_chars (e : Z) :
  exists post,
    Number.exponent_part e = 0x65 :: post
    /\ Forall (fun c => is_number_char c = true) post.
Proof.
  unfold Number.exponent_part.
  exists ((if e <? 0 then js "-" else js "+") ++ JS.decimal (Z.abs e)).
  split; [reflexivity|].
  apply Forall_app. split.
  - destruct (e <? 0); repeat constructor.
  - apply digits_number_chars, decimal_digits. lia.
Qed.

(** An integral Number below 10^21 is written as its digits. *)
Lemma toString_integral (negative : bool) (s n : Z) :
  0 < s ->
  JS.num_digits s <= n <= 21 ->
  Number.toString (Finite negative s n)
  = (if negative then js "-" else [])
      ++ (JS.decimal s ++ repeat 0x30 (Z.to_nat (n - JS.num_digits s))).
Proof.
  intros Hs [Hk Hn]. unfold Number.toString, Number.toString_positive.
  destruct (Z.eqb_spec s 0); [lia|].
  fold (JS.num_digits s).
  destruct (Z.leb_spec (JS.num_digits s) n); [|lia].
  destruct (Z.leb_spec n 21); [|lia].
  reflexivity.
Qed.

(** Every other finite Number is written with a point or an exponent. *)
Lemma toString_not_integral (negative : bool) (s n : Z) :
  0 < s ->
  ~ (JS.num_digits s <= n <= 21) ->
  exists pre x post,
    Number.toString (Finite negative s n)
    = (if negative then js "-" else []) ++ pre ++ x :: post
    /\ pre <> []
    /\ Forall (fun c => JS.is_digit c = true) pre
    /\ is_number_char x = true
    /\ JS.is_digit x = false
    /\ Forall (fun c => is_number_char c = true) post.
Proof.
  intros Hs Hnot. unfold Number.toString, Number.toString_positive.
  destruct (Z.eqb_spec s 0); [lia|].
  fold (JS.num_digits s).
  pose proof (decimal_digits s ltac:(lia)) as Hds.
  pose proof (decimal_nonempty s) as Hne.
  assert (JS.num_digits s = Z.of_nat (length (JS.decimal s))) as Hk by reflexivity.
  destruct (Z.leb_spec (JS.num_digits s) n) as [Hkn|Hkn];
    destruct (Z.leb_spec n 21) as [Hn21|Hn21]; simpl; try lia.
  - (* 21 < n: exponent *)
    destruct (Z.ltb_spec 0 n); [|lia]. simpl.
    destruct (Z.ltb_spec (-6) n); simpl; [|lia].
    destruct (Z.leb_spec n 0); [lia|]. simpl.
    destruct (exponent_part_chars (n - 1)) as (post & -> & Hpost).
    destruct (Z.eqb_spec (JS.num_digits s) 1).
    + exists (JS.decimal s), 0x65, post. repeat split; auto.
    + exists (firstn 1 (JS.decimal s)), 0x2E, (skipn 1 (JS.decimal s) ++ 0x65 :: post).
      split; [reflexivity|]. split.
      { destruct (JS.decimal s); [contradiction|discriminate]. }
      split; [apply Forall_take, Hds|].
      split; [reflexivity|]. split; [reflexivity|].
      apply Forall_app. split; [apply digits_number_chars, Forall_drop, Hds|].
      constructor; [reflexivity | exact Hpost].
  - (* n < k, n <= 21 *)
    destruct (Z.ltb_spec 0 n) as [Hpos|Hnonpos]; simpl.
    + exists (firstn (Z.to_nat n) (JS.decimal s)), 0x2E, (skipn (Z.to_nat n) (JS.decimal s)).
      split; [reflexivity|]. split.
      { destruct (JS.decimal s); [contradiction|].
        destruct (Z.to_nat n) eqn:E; [lia|discriminate]. }
      split; [apply Forall_take, Hds|].
      split; [reflexivity|]. split; [reflexivity|].
      apply digits_number_chars, Forall_drop, Hds.
    + destruct (Z.ltb_spec (-6) n); simpl.
      * destruct (Z.leb_spec n 0); [|lia].
        exists [0x30], 0x2E, (repeat 0x30 (Z.to_nat (- n)) ++ JS.decimal s).
        split; [reflexivity|]. split; [discriminate|].
        split; [repeat constructor|].
        split; [reflexivity|]. split; [reflexivity|].
        apply Forall_app. split; apply digits_number_chars; [apply zeros_digits | exact Hds].
      * destruct (exponent_part_chars (n - 1)) as (post & -> & Hpost).
        destruct (Z.eqb_spec (JS.num_digits s) 1).
        -- exists (JS.decimal s), 0x65, post. repeat split; auto.
        -- exists (firstn 1 (JS.decimal s)), 0x2E, (skipn 1 (JS.decimal s) ++ 0x65 :: post).
           split; [reflexivity|]. split.
           { destruct (JS.decimal s); [contradiction|discriminate]. }
           split; [apply Forall_take, Hds|].
           split; [reflexivity|]. split; [reflexivity|].
           apply Forall_app. split; [apply digits_number_chars, Forall_drop, Hds|].
           constructor; [reflexivity | exact Hpost].
  - (* n < k, 21 < n *)
    destruct (Z.ltb_spec 0 n); [|lia]. simpl.
    destruct (Z.ltb_spec (-6) n); simpl; [|lia].
    destruct (Z.leb_spec n 0); [lia|]. simpl.
    destruct (exponent_part_chars (n - 1)) as (post & -> & Hpost).
    destruct (Z.eqb_spec (JS.num_digits s) 1).
    + exists (JS.decimal s), 0x65, post. repeat split; auto.
    + exists (firstn 1 (JS.decimal s)), 0x2E, (skipn 1 (JS.decimal s) ++ 0x65 :: post).
      split; [reflexivity|]. split.
      { destruct (JS.decimal s); [contradiction|discriminate]. }
      split; [apply Forall_take, Hds|].
      split; [reflexivity|]. split; [reflexivity|].
      apply Forall_app. split; [apply digits_number_chars, Forall_drop, Hds|].
      constructor; [reflexivity | exact Hpost].
Qed.

(** ** Integers as Numbers *)

Lemma digits_fuel_bounds (fuel : nat) : forall n,
  0 < n < 2 ^ Z.of_nat fuel ->
  let k := Z.of_nat (length (JS.digits_fuel fuel n)) in
  1 <= k /\ 10 ^ (k - 1) <= n < 10 ^ k.
Proof.
  induction fuel as [|fuel IH]; intros n Hn; [simpl in Hn; lia|].
  cbn [JS.digits_fuel]. destruct (Z.ltb_spec n 10) as [Hsmall|Hbig].
  - simpl. lia.
  - assert (0 < n / 10 < 2 ^ Z.of_nat fuel) as Hdiv.
    { rewrite Nat2Z.inj_succ, Z.pow_succ_r in Hn by lia.
      split; [apply Z.div_str_pos; lia|].
      apply Z.div_lt_upper_bound; lia. }
    specialize (IH _ Hdiv). cbv zeta in IH |- *.
    rewrite length_app, Nat2Z.inj_add. simpl Z.of_nat.
    set (k := Z.of_nat (length (JS.digits_fuel fuel (n / 10)))) in *.
    destruct IH as (Hk & Hlo & Hhi).
    replace (k + Z.of_nat 1 - 1) with (Z.succ (k - 1)) by lia.
    replace (k + Z.of_nat 1) with (Z.succ k) by lia.
    rewrite !Z.pow_succ_r by lia.
    pose proof (Z.div_mod n 10 ltac:(lia)).
    pose proof (Z.mod_pos_bound n 10 ltac:(lia)).
    lia.
Qed.

(** The number of digits of a positive integer is its decimal order. *)
Lemma num_digits_bounds (a : Z) :
  0 < a ->
  1 <= JS.num_digits a /\ 10 ^ (JS.num_digits a - 1) <= a < 10 ^ JS.num_digits a.
Proof.
  intros Ha. unfold JS.num_digits, JS.decimal.
  apply digits_fuel_bounds.
  pose proof (decimal_fuel a ltac:(lia)). lia.
Qed.

Lemma decimal_order_unique (a k k' : Z) :
  1 <= k -> 1 <= k' ->
  10 ^ (k - 1) <= a < 10 ^ k ->
  10 ^ (k' - 1) <= a < 10 ^ k' ->
  k = k'.
Proof.
  intros Hk Hk' [Hlo Hhi] [Hlo' Hhi'].
  destruct (Z.lt_trichotomy k k') as [Hlt|[Heq|Hgt]]; [|exact Heq|].
  - assert (10 ^ k <= 10 ^ (k' - 1)) by (apply Z.pow_le_mono_r; lia). lia.
  - assert (10 ^ k' <= 10 ^ (k - 1)) by (apply Z.pow_le_mono_r; lia). lia.
Qed.

Lemma num_digits_shift (s : Z) (j : nat) :
  0 < s -> JS.num_digits (s * 10 ^ Z.of_nat j) = JS.num_digits s + Z.of_nat j.
Proof.
  intros Hs.
  assert (0 < 10 ^ Z.of_nat j) as Hpow by (apply Z.pow_pos_nonneg; lia).
  destruct (num_digits_bounds s Hs) as (Hk & Hlo & Hhi).
  destruct (num_digits_bounds (s * 10 ^ Z.of_nat j) ltac:(nia)) as (Hk' & Hb').
  apply (decimal_order_unique (s * 10 ^ Z.of_nat j)); [exact Hk' | lia | exact Hb' |].
  replace (JS.num_digits s + Z.of_nat j - 1)
    with ((JS.num_digits s - 1) + Z.of_nat j) by lia.
  rewrite !Z.pow_add_r by lia. nia.
Qed.

Lemma strip_zeros_spec (fuel : nat) : forall a,
  0 < a ->
  exists j : nat,
    a = Number.strip_zeros fuel a * 10 ^ Z.of_nat j
    /\ 0 < Number.strip_zeros fuel a.
Proof.
  induction fuel as [|fuel IH]; intros a Ha; simpl.
  - exists 0%nat. simpl. lia.
  - destruct (Z.eqb_spec (a mod 10) 0) as [Hmod|Hmod]; simpl.
    + destruct (Z.eqb_spec a 0); [lia|]. simpl.
      pose proof (Z.div_mod a 10 ltac:(lia)) as Hdm.
      destruct (IH (a / 10) ltac:(lia)) as (j & Hj & Hpos).
      exists (S j). split; [|exact Hpos].
      rewrite Nat2Z.inj_succ, Z.pow_succ_r by lia. lia.
    + exists 0%nat. simpl. lia.
Qed.

(** An integer Number below 10^21 in magnitude: the Number's decimal pair
    denotes the integer, and its string is the integer's digits. *)
Lemma of_Z_integral (z : Z) :
  z <> 0 -> Z.abs z < 10 ^ 21 ->
  exists s n,
    Number.of_Z z = Finite (z <? 0) s n
    /\ 0 < s
    /\ JS.num_digits s <= n <= 21
    /\ Number.decimal_value (z <? 0) s n = z.
Proof.
  intros Hz Hsmall. unfold Number.of_Z.
  set (a := Z.abs z) in *. assert (0 < a) as Ha by lia.
  destruct (strip_zeros_spec (length (JS.decimal a)) a Ha) as (j & Hj & Hs).
  set (s := Number.strip_zeros (length (JS.decimal a)) a) in *.
  exists s, (JS.num_digits a). split; [reflexivity|]. split; [exact Hs|].
  assert (JS.num_digits a = JS.num_digits s + Z.of_nat j) as Hn.
  { rewrite Hj at 1. apply num_digits_shift, Hs. }
  split.
  - split; [lia|].
    destruct (num_digits_bounds a Ha) as (Hk & Hlo & _).
    destruct (Z.le_gt_cases (JS.num_digits a) 21) as [|Hbig]; [assumption|].
    assert (10 ^ 21 <= 10 ^ (JS.num_digits a - 1)) by (apply Z.pow_le_mono_r; lia).
    lia.
  - unfold Number.decimal_value. rewrite Hn.
    replace (JS.num_digits s + Z.of_nat j - JS.num_digits s) with (Z.of_nat j) by lia.
    rewrite <- Hj. unfold a. destruct (Z.ltb_spec z 0); lia.
Qed.

(** ** The number branch *)

Lemma encode_number_integral (negative : bool) (s n : Z) :
  0 < s ->
  JS.num_digits s <= n <= 21 ->
  encodeU64 (Number.toString (Finite negative s n))
  = Ok (JS.setBigUint64_be (Number.decimal_value negative s n)).
Proof.
  intros Hs Hn. rewrite (toString_integral negative s n Hs Hn).
  rewrite (encodeU64_digits negative _ (s * 10 ^ (n - JS.num_digits s))).
  - reflexivity.
  - intros H. apply app_eq_nil in H as [H _]. exact (decimal_nonempty s H).
  - apply Forall_app. split; [apply decimal_digits; lia | apply zeros_digits].
  - rewrite parse_digits_app, (decimal_parse s 0) by lia.
    rewrite parse_digits_zeros. f_equal.
    rewrite Z2Nat.id by lia. lia.
Qed.

Lemma encode_number_not_integral (negative : bool) (s n : Z) :
  0 < s ->
  ~ (JS.num_digits s <= n <= 21) ->
  encodeU64 (Number.toString (Finite negative s n)) = Throw SyntaxError.
Proof.
  intros Hs Hn.
  destruct (toString_not_integral negative s n Hs Hn)
    as (pre & x & post & -> & Hne & Hpre & Hx & Hnd & Hpost).
  apply encodeU64_not_integer; assumption.
Qed.

(** C10, as stated, fails on the code: the Number 10^21 is an integer, its
    string is ["1e+21"], and [BigInt] rejects that string. *)
Lemma C10_counterexample :
  Number.of_Z (10 ^ 21) = Finite false 1 22
  /\ Number.isInteger (Finite false 1 22) = true
  /\ Number.toString (Finite false 1 22) = js "1e+21"
  /\ JS.BigInt (js "1e+21") = Throw SyntaxError
  /\ Index.encodeInputAsBytes (VNumber (Finite false 1 22)) = Throw SyntaxError
  /\ Strict.encodeInputAsBytes None (VNumber (Finite false 1 22)) = Throw SyntaxError.
Proof.
  vm_compute. repeat split.
Qed.

(** C10 (amended). Every bigint, negative or beyond 2^64, encodes to the
    eight big-endian bytes of its value modulo 2^64. So does every Number
    that is an integer of magnitude at most 2^53. In general a finite
    non-zero Number encodes exactly when its string is plain digits, that
    is when it is an integer below 10^21 in magnitude, and the bytes are
    those of the integer its string denotes, modulo 2^64; an integer
    Number of 10^21 or more, a Number with a fraction, [NaN] and the
    infinities all end in a SyntaxError. *)
Theorem C10_u64_encoding (ctx : option context) :
  (forall z : Z,
      exists bs,
        Index.encodeInputAsBytes (VBigInt z) = Ok bs
        /\ Strict.encodeInputAsBytes ctx (VBigInt z) = Ok bs
        /\ length bs = 8%nat /\ all_bytes bs
        /\ be_value bs = z mod 2 ^ 64)
  /\ (forall z : Z,
         Z.abs z <= 2 ^ 53 ->
         exists bs,
           Index.encodeInputAsBytes (VNumber (Number.of_Z z)) = Ok bs
           /\ Strict.encodeInputAsBytes ctx (VNumber (Number.of_Z z)) = Ok bs
           /\ length bs = 8%nat /\ all_bytes bs
           /\ be_value bs = z mod 2 ^ 64)
  /\ (forall (negative : bool) (s n : Z),
         0 < s ->
         let expected :=
           if (JS.num_digits s <=? n) && (n <=? 21)
           then Ok (JS.setBigUint64_be (Number.decimal_value negative s n))
           else Throw SyntaxError in
         Index.encodeInputAsBytes (VNumber (Finite negative s n)) = expected
         /\ Strict.encodeInputAsBytes ctx (VNumber (Finite negative s n)) = expected)
  /\ (forall x : number,
         x = NaN \/ x = Infinity false \/ x = Infinity true ->
         Index.encodeInputAsBytes (VNumber x) = Throw SyntaxError
         /\ Strict.encodeInputAsBytes ctx (VNumber x) = Throw SyntaxError).
Proof.
  split; [|split; [|split]].
  - intros z. exists (JS.setBigUint64_be z).
    cbn [Index.encodeInputAsBytes Strict.encodeInputAsBytes].
    rewrite encodeU64_BigInt_toString.
    repeat split; [apply setBigUint64_be_bytes | apply setBigUint64_be_value].
  - intros z Hz. exists (JS.setBigUint64_be z).
    cbn [Index.encodeInputAsBytes Strict.encodeInputAsBytes].
    assert (encodeU64 (Number.toString (Number.of_Z z)) = Ok (JS.setBigUint64_be z)) as ->.
    { destruct (Z.eq_dec z 0) as [->|Hnz]; [reflexivity|].
      assert (Z.abs z < 10 ^ 21) as Hsmall.
      { change (2 ^ 53) with 9007199254740992 in Hz.
        change (10 ^ 21) with 1000000000000000000000. lia. }
      destruct (of_Z_integral z Hnz Hsmall) as (s & n & -> & Hs & Hn & Hval).
      rewrite (encode_number_integral _ s n Hs Hn), Hval. reflexivity. }
    repeat split; [apply setBigUint64_be_bytes | apply setBigUint64_be_value].
  - intros negative s n Hs expected. unfold expected.
    cbn [Index.encodeInputAsBytes Strict.encodeInputAsBytes].
    destruct (Z.leb_spec (JS.num_digits s) n) as [Hk|Hk];
      destruct (Z.leb_spec n 21) as [Hn|Hn]; cbn [andb];
      try (rewrite (encode_number_not_integral negative s n Hs) by lia; auto).
    rewrite (encode_number_integral negative s n Hs) by lia. auto.
  - intros x [->|[->| ->]]; split; reflexivity.
Qed.

(** The Numbers [-1], [1.5] and [NaN]. *)
Lemma C10_u64_encoding_witness :
  Z.abs (-1) <= 2 ^ 53
  /\ 0 < 15
  /\ (exists bs,
        Index.encodeInputAsBytes (VNumber (Number.of_Z (-1))) = Ok bs
        /\ be_value bs = (-1) mod 2 ^ 64)
  /\ Index.encodeInputAsBytes (VNumber (Finite false 15 1)) = Throw SyntaxError
  /\ Index.encodeInputAsBytes (VNumber NaN) = Throw SyntaxError.
Proof.
  assert (Z.abs (-1) <= 2 ^ 53) as Hsafe by (vm_compute; discriminate).
  assert (0 < 15) as Hpos by lia.
  destruct (C10_u64_encoding None) as (_ & Hint & Hfinite & Hother).
  split; [exact Hsafe|]. split; [exact Hpos|]. split; [|split].
  - destruct (Hint (-1) Hsafe) as (bs & Hbs & _ & _ & _ & Hval).
    exists bs. split; [exact Hbs | exact Hval].
  - exact (proj1 (Hfinite false 15 1 Hpos)).
  - exact (proj1 (Hother NaN (or_introl eq_refl))).
Defined.

(** * The rest of the encoder and of the Hasher *)

(** ** Objects, branch by branch *)

Lemma get_encoded {A} (f : value -> A) (key : jsstring)
  (fields : list (jsstring * value)) :
  get key (map (fun kv => (fst kv, (snd kv, f (snd kv)))) fields)
  = match get key fields with
    | Some v => Some (v, f v)
    | None => None
    end.
Proof.
  induction fields as [|[k v] fields IH]; simpl; [reflexivity|].
  destruct (decide (k = key)); [reflexivity | exact IH].
Qed.

Lemma enum_keys_shape {B} (fields : list (jsstring * value))
  (enum : jsstring -> B) (struct : B) :
  match List.filter JS.test_upper_start (map fst fields), map fst fields with
  | [variantName], [_] => enum variantName
  | _, _ => struct
  end
  = match fields with
    | [(key, _)] => if JS.test_upper_start key then enum key else struct
    | _ => struct
    end.
Proof.
  destruct fields as [|[k v] [|[k2 v2] rest]].
  - reflexivity.
  - simpl. destruct (JS.test_upper_start k); reflexivity.
  - cbn [map fst].
    destruct (List.filter JS.test_upper_start (k :: k2 :: map fst rest))
      as [|x [|y l]]; reflexivity.
Qed.

Lemma struct_chunks (f : value -> result bytes) (fields : list (jsstring * value)) :
  (let* fieldBytes :=
     sequence (map (fun e => snd (snd e))
                   (map (fun kv => (fst kv, (snd kv, f (snd kv)))) fields)) in
   copyChunks fieldBytes)
  = let* chunks := sequence (map (fun kv => f (snd kv)) fields) in
    Ok (concat chunks).
Proof.
  rewrite map_map. cbn [snd].
  destruct (sequence _); [apply copyChunks_concat | reflexivity].
Qed.

(** The object branches of [src/index.ts] in the order of the source. *)
Lemma Index_encode_object (toString : option jsstring)
  (fields : list (jsstring * value)) :
  Index.encodeInputAsBytes (VObject toString fields) =
  match bn_digits toString with
  | Some str => encodeU64 str
  | None =>
      match get (js "elements") fields with
      | Some (VArray elements) => Index.encodeInputAsBytes (VArray elements)
      | _ =>
          if enum_shaped fields then
            match fields with
            | (key, v) :: _ =>
                let* inner := Index.encodeInputAsBytes v in
                Ok (JS.ToUint8 (Index.getEnumDiscriminant key) :: inner)
            | [] => Ok []
            end
          else
            let* chunks :=
              sequence (map (fun kv => Index.encodeInputAsBytes (snd kv)) fields) in
            Ok (concat chunks)
      end
  end.
Proof.
  cbn [Index.encodeInputAsBytes].
  destruct (bn_digits toString); [reflexivity|].
  rewrite get_encoded.
  assert (match List.filter JS.test_upper_start (map fst fields), map fst fields with
          | [variantName], [_] =>
              let discriminant := Index.getEnumDiscriminant variantName in
              let discriminantByte := [JS.ToUint8 discriminant] in
              let* valueBytes :=
                match
                  get variantName
                    (map (fun kv => (fst kv, (snd kv, Index.encodeInputAsBytes (snd kv))))
                         fields)
                with
                | Some (_, of_value) => of_value
                | None => Ok (JS.Uint8Array_new 0)
                end in
              let result0 :=
                JS.Uint8Array_new (length discriminantByte + length valueBytes) in
              let* result1 := JS.Uint8Array_set result0 discriminantByte 0 in
              JS.Uint8Array_set result1 valueBytes (length discriminantByte)
          | _, _ =>
              let* fieldBytes :=
                sequence
                  (map (fun e => snd (snd e))
                       (map (fun kv => (fst kv, (snd kv, Index.encodeInputAsBytes (snd kv))))
                            fields)) in
              copyChunks fieldBytes
          end
          = if enum_shaped fields then
              match fields with
              | (key, v) :: _ =>
                  let* inner := Index.encodeInputAsBytes v in
                  Ok (JS.ToUint8 (Index.getEnumDiscriminant key) :: inner)
              | [] => Ok []
              end
            else
              let* chunks :=
                sequence (map (fun kv => Index.encodeInputAsBytes (snd kv)) fields) in
              Ok (concat chunks)) as Htail.
  { rewrite enum_keys_shape, struct_chunks.
    destruct fields as [|[k v] [|? ?]]; try reflexivity.
    unfold enum_shaped. destruct (JS.test_upper_start k); [|reflexivity].
    cbn [map fst snd get].
    destruct (decide (k = k)); [|contradiction].
    destruct (Index.encodeInputAsBytes v); [apply enum_layout | reflexivity]. }
  destruct (get (js "elements") fields) as [[]|]; try exact Htail.
  reflexivity.
Qed.

(** The object branches of the file with an enum context. *)
Lemma Strict_encode_object (ctx : option context) (toString : option jsstring)
  (fields : list (jsstring * value)) :
  Strict.encodeInputAsBytes ctx (VObject toString fields) =
  match bn_digits toString with
  | Some str => encodeU64 str
  | None =>
      match get (js "elements") fields with
      | Some (VArray elements) => Strict.encodeInputAsBytes ctx (VArray elements)
      | _ =>
          if enum_shaped fields then
            match fields with
            | (key, v) :: _ =>
                match
                  match ctx with
                  | Some entries => Strict.findVariant entries key
                  | None => None
                  end
                with
                | None => Throw (VariantNotFound key)
                | Some d =>
                    let* inner := Strict.encodeInputAsBytes ctx v in
                    Ok (d mod 256 :: inner)
                end
            | [] => Ok []
            end
          else
            let* chunks :=
              sequence (map (fun kv => Strict.encodeInputAsBytes ctx (snd kv)) fields) in
            Ok (concat chunks)
      end
  end.
Proof.
  cbn [Strict.encodeInputAsBytes].
  destruct (bn_digits toString); [reflexivity|].
  rewrite get_encoded.
  assert (match List.filter JS.test_upper_start (map fst fields), map fst fields with
          | [variantName], [_] =>
              let found :=
                match ctx with
                | Some entries => Strict.findVariant entries variantName
                | None => None
                end in
              match found with
              | None => Throw (VariantNotFound variantName)
              | Some discriminant =>
                  let discriminantByte := [JS.ToUint8 (Some discriminant)] in
                  let* valueBytes :=
                    match
                      get variantName
                        (map (fun kv =>
                                (fst kv, (snd kv, Strict.encodeInputAsBytes ctx (snd kv))))
                             fields)
                    with
                    | Some (_, of_value) => of_value
                    | None => Ok (JS.Uint8Array_new 0)
                    end in
                  let result0 :=
                    JS.Uint8Array_new (length discriminantByte + length valueBytes) in
                  let* result1 := JS.Uint8Array_set result0 discriminantByte 0 in
                  JS.Uint8Array_set result1 valueBytes (length discriminantByte)
              end
          | _, _ =>
              let* fieldBytes :=
                sequence
                  (map (fun e => snd (snd e))
                       (map (fun kv =>
                               (fst kv, (snd kv, Strict.encodeInputAsBytes ctx (snd kv))))
                            fields)) in
              copyChunks fieldBytes
          end
          = if enum_shaped fields then
              match fields with
              | (key, v) :: _ =>
                  match
                    match ctx with
                    | Some entries => Strict.findVariant entries key
                    | None => None
                    end
                  with
                  | None => Throw (VariantNotFound key)
                  | Some d =>
                      let* inner := Strict.encodeInputAsBytes ctx v in
                      Ok (d mod 256 :: inner)
                  end
              | [] => Ok []
              end
            else
              let* chunks :=
                sequence (map (fun kv => Strict.encodeInputAsBytes ctx (snd kv)) fields) in
              Ok (concat chunks)) as Htail.
  { rewrite enum_keys_shape, struct_chunks.
    destruct fields as [|[k v] [|? ?]]; try reflexivity.
    unfold enum_shaped. destruct (JS.test_upper_start k); [|reflexivity].
    cbn [map fst snd get].
    destruct (decide (k = k)); [|contradiction].
    destruct (match ctx with Some entries => Strict.findVariant entries k | None => None end);
      [|reflexivity].
    destruct (Strict.encodeInputAsBytes ctx v); [apply enum_layout | reflexivity]. }
  destruct (get (js "elements") fields) as [[]|]; try exact Htail.
  reflexivity.
Qed.

(** ** Structs, wrapped vectors and digit strings *)

Lemma upper_start_get_elements (key : jsstring) (v : value) :
  JS.test_upper_start key = true -> get (js "elements") [(key, v)] = None.
Proof.
  intros Hupper. simpl.
  destruct (decide (key = js "elements")) as [->|_]; [|reflexivity].
  vm_compute in Hupper. discriminate.
Qed.

(** X1. An object that is no BN, holds no [elements] array and is not
    enum-shaped is a struct: its bytes are the encodings of its field
    values in key order, joined, and the field names leave no trace. In
    [src/index.ts] that is [encodeMultipleInputs] of the values. *)
Theorem X1_struct_is_its_values (ctx : option context)
  (toString : option jsstring) (fields : list (jsstring * value)) :
  bn_digits toString = None ->
  (forall elements, get (js "elements") fields <> Some (VArray elements)) ->
  enum_shaped fields = false ->
  Index.encodeInputAsBytes (VObject toString fields)
    = Index.encodeMultipleInputs (map snd fields)
  /\ Strict.encodeInputAsBytes ctx (VObject toString fields)
     = let* chunks :=
         sequence (map (Strict.encodeInputAsBytes ctx) (map snd fields)) in
       Ok (concat chunks).
Proof.
  intros Hbn Hel Hshape. split.
  - rewrite Index_encode_object, Hbn, Hshape, Index_encodeMultipleInputs_concat.
    rewrite map_map.
    destruct (get (js "elements") fields) as [[]|]; try reflexivity.
    exfalso. exact (Hel _ eq_refl).
  - rewrite Strict_encode_object, Hbn, Hshape. rewrite map_map.
    destruct (get (js "elements") fields) as [[]|]; try reflexivity.
    exfalso. exact (Hel _ eq_refl).
Qed.

(** The struct [{a: 5, b: true}]. *)
Lemma X1_struct_is_its_values_witness :
  let fields := [(js "a", VNumber (Number.of_Z 5)); (js "b", VBoolean true)] in
  bn_digits (Some (js "[object Object]")) = None
  /\ (forall elements, get (js "elements") fields <> Some (VArray elements))
  /\ enum_shaped fields = false
  /\ Index.encodeInputAsBytes (plain fields)
     = Index.encodeMultipleInputs [VNumber (Number.of_Z 5); VBoolean true].
Proof.
  assert (forall elements,
             get (js "elements")
               [(js "a", VNumber (Number.of_Z 5)); (js "b", VBoolean true)]
             <> Some (VArray elements)) as Hel
    by (intros elements H; vm_compute in H; discriminate).
  split; [reflexivity|]. split; [exact Hel|]. split; [reflexivity|].
  exact (proj1 (X1_struct_is_its_values None (Some (js "[object Object]")) _
                  eq_refl Hel eq_refl)).
Defined.

(** X2. An object that is no BN and has an array under [elements] is
    encoded as that array, whatever else it holds. *)
Theorem X2_elements_wrapper (ctx : option context) (toString : option jsstring)
  (fields : list (jsstring * value)) (elements : list value) :
  bn_digits toString = None ->
  get (js "elements") fields = Some (VArray elements) ->
  Index.encodeInputAsBytes (VObject toString fields)
    = Index.encodeInputAsBytes (VArray elements)
  /\ Strict.encodeInputAsBytes ctx (VObject toString fields)
     = Strict.encodeInputAsBytes ctx (VArray elements).
Proof.
  intros Hbn Hel. split.
  - rewrite Index_encode_object, Hbn, Hel. reflexivity.
  - rewrite Strict_encode_object, Hbn, Hel. reflexivity.
Qed.

(** A vector of two next to another field. *)
Lemma X2_elements_wrapper_witness :
  let elements := [VBoolean true; VString (js "hi")] in
  let fields := [(js "len", VNumber (Number.of_Z 2)); (js "elements", VArray elements)] in
  bn_digits (Some (js "[object Object]")) = None
  /\ get (js "elements") fields = Some (VArray elements)
  /\ Index.encodeInputAsBytes (plain fields) = Index.encodeInputAsBytes (VArray elements).
Proof.
  split; [reflexivity|]. split; [reflexivity|].
  exact (proj1 (X2_elements_wrapper None (Some (js "[object Object]"))
                  [(js "len", VNumber (Number.of_Z 2));
                   (js "elements", VArray [VBoolean true; VString (js "hi")])]
                  [VBoolean true; VString (js "hi")]
                  eq_refl eq_refl)).
Defined.

Lemma parse_digits_all_digits (l : jsstring) : forall acc,
  Forall (fun c => JS.is_digit c = true) l ->
  JS.parse_digits 10 acc l
  = Some (fold_left (fun a c => a * 10 + (c - 0x30)) l acc).
Proof.
  induction l as [|c l IH]; intros acc Hl; simpl; [reflexivity|].
  rewrite radix_digit_10, (Forall_inv Hl). apply IH, (Forall_inv_tail Hl).
Qed.

Lemma test_digits_spec (str : jsstring) :
  JS.test_digits str = true ->
  str <> [] /\ Forall (fun c => JS.is_digit c = true) str.
Proof.
  unfold JS.test_digits. destruct str as [|c rest]; [discriminate|].
  intros H. split; [discriminate|]. apply List.Forall_forall.
  rewrite forallb_forall in H. exact H.
Qed.

Lemma encodeU64_test_digits (str : jsstring) :
  JS.test_digits str = true ->
  encodeU64 str = Ok (JS.setBigUint64_be (digits_value str)).
Proof.
  intros H. destruct (test_digits_spec str H) as [Hne Hds].
  exact (encodeU64_digits false str (digits_value str) Hne Hds
           (parse_digits_all_digits str 0 Hds)).
Qed.

(** X3. Whatever has a [toString()] of decimal digits only, an object or
    an array, is encoded as eight bytes: the integer the digits denote,
    modulo 2^64, most significant byte first. Leading zeros and values
    beyond 64 bits are accepted; the fields of the object are not read. *)
Theorem X3_digit_string_objects (ctx : option context) (str : jsstring) :
  JS.test_digits str = true ->
  let bs := JS.setBigUint64_be (digits_value str) in
  length bs = 8%nat
  /\ be_value bs = digits_value str mod 2 ^ 64
  /\ (forall fields,
         Index.encodeInputAsBytes (VObject (Some str) fields) = Ok bs
         /\ Strict.encodeInputAsBytes ctx (VObject (Some str) fields) = Ok bs)
  /\ (forall elements,
         Array_toString elements = Ok str ->
         Index.encodeInputAsBytes (VArray elements) = Ok bs
         /\ Strict.encodeInputAsBytes ctx (VArray elements) = Ok bs).
Proof.
  intros Hstr bs. split; [reflexivity|].
  split; [apply setBigUint64_be_value|]. split.
  - intros fields.
    rewrite Index_encode_object, Strict_encode_object. cbn [bn_digits].
    rewrite Hstr, (encodeU64_test_digits str Hstr). auto.
  - intros elements Hto.
    rewrite Index_encode_array, Strict_encode_array, Hto. cbn [bind].
    rewrite Hstr, (encodeU64_test_digits str Hstr). auto.
Qed.

(** A BN whose string is 2^64 + 7 with a leading zero, and the array that
    holds that string. *)
Lemma X3_digit_string_objects_witness :
  let str := js "018446744073709551623" in
  JS.test_digits str = true
  /\ digits_value str mod 2 ^ 64 = 7
  /\ Index.encodeInputAsBytes
       (VObject (Some str) [(js "words", VArray [VNumber (Number.of_Z 7)])])
     = Ok [0; 0; 0; 0; 0; 0; 0; 7]
  /\ Index.encodeInputAsBytes (VArray [VString str]) = Ok [0; 0; 0; 0; 0; 0; 0; 7].
Proof.
  destruct (X3_digit_string_objects None (js "018446744073709551623") eq_refl)
    as (_ & _ & Hobject & Harray).
  split; [reflexivity|]. split; [reflexivity|]. split.
  - exact (proj1 (Hobject _)).
  - exact (proj1 (Harray [VString (js "018446744073709551623")] eq_refl)).
Defined.

(** ** Arrays that reach the array branch *)

Lemma sequence_length {A} (rs : list (result A)) (xs : list A) :
  sequence rs = Ok xs -> length xs = length rs.
Proof.
  revert xs. induction rs as [|r rs IH]; intros xs; simpl.
  - intros [= <-]. reflexivity.
  - destruct r as [a|e]; simpl; [|discriminate].
    destruct (sequence rs) as [others|e]; simpl; [|discriminate].
    intros [= <-]. simpl. rewrite (IH others eq_refl). reflexivity.
Qed.

Lemma test_digits_comma (str : jsstring) :
  In 0x2C str -> JS.test_digits str = false.
Proof.
  intros Hin. unfold JS.test_digits. destruct str as [|c rest]; [reflexivity|].
  destruct (forallb JS.is_digit (c :: rest)) eqn:E; [|reflexivity].
  rewrite forallb_forall in E. specialize (E _ Hin). discriminate.
Qed.

Lemma join_comma (parts : list jsstring) :
  (2 <= length parts)%nat -> In 0x2C (join (js ",") parts).
Proof.
  destruct parts as [|p [|q rest]]; simpl; try lia. intros _.
  apply in_or_app. right. left. reflexivity.
Qed.

(** The string of an array with no element, or with two or more, is not
    a digit string. *)
Lemma Array_toString_not_digits (elements : list value) (str : jsstring) :
  length elements <> 1%nat ->
  Array_toString elements = Ok str ->
  JS.test_digits str = false.
Proof.
  intros Hlen. unfold Array_toString. cbn [ToString].
  destruct (sequence _) as [parts|e] eqn:Hseq; simpl; [|discriminate].
  intros [= <-].
  apply sequence_length in Hseq. rewrite length_map in Hseq.
  destruct parts as [|p [|q rest]]; simpl in Hseq.
  - reflexivity.
  - lia.
  - apply test_digits_comma, join_comma. simpl. lia.
Qed.

(** X4. An array with no element or with two or more is encoded element
    by element: the bytes are the encodings of the elements in order,
    with nothing between them. Before that the array is joined to a
    string, so an element that cannot be made a string (a Symbol) ends
    the call with a TypeError. *)
Theorem X4_array_elementwise (ctx : option context) (elements : list value) :
  length elements <> 1%nat ->
  Index.encodeInputAsBytes (VArray elements)
    = (let* str := Array_toString elements in
       let* chunks := sequence (map Index.encodeInputAsBytes elements) in
       Ok (concat chunks))
  /\ Strict.encodeInputAsBytes ctx (VArray elements)
     = (let* str := Array_toString elements in
        let* chunks := sequence (map (Strict.encodeInputAsBytes ctx) elements) in
        Ok (concat chunks)).
Proof.
  intros Hlen. rewrite Index_encode_array, Strict_encode_array.
  destruct (Array_toString elements) as [str|e] eqn:Hstr; simpl; [|auto].
  rewrite (Array_toString_not_digits elements str Hlen Hstr). auto.
Qed.

(** Two digit strings, and a pair that holds a Symbol. *)
Lemma X4_array_elementwise_witness :
  length [VString (js "5"); VString (js "6")] <> 1%nat
  /\ Index.encodeInputAsBytes (VArray [VString (js "5"); VString (js "6")])
     = Ok [0x35; 0x36]
  /\ Index.encodeInputAsBytes (VArray [VBoolean true; VSymbol]) = Throw TypeError.
Proof.
  assert (length [VString (js "5"); VString (js "6")] <> 1%nat) as H1
    by (simpl; lia).
  assert (length [VBoolean true; VSymbol] <> 1%nat) as H2 by (simpl; lia).
  split; [exact H1|]. split.
  - rewrite (proj1 (X4_array_elementwise None _ H1)). reflexivity.
  - rewrite (proj1 (X4_array_elementwise None _ H2)). reflexivity.
Defined.

(** ** Enums that are not resolved *)

Lemma findVariant_none (entries : context) (key : jsstring) :
  Forall (fun entry => Strict.includes (snd entry) key = false) entries ->
  Strict.findVariant entries key = None.
Proof.
  induction 1 as [|[name vs] entries Hentry _ IH]; simpl in *; [reflexivity|].
  rewrite Hentry. exact IH.
Qed.

(** X5. In the file with an enum context an enum-shaped object that is no
    BN (its own [toString()] is not all digits, as for every object
    literal) and whose key no entry of the context lists, or that is
    encoded without a context, ends the call with the error that names
    the key; the inner value is not looked at, so it decides nothing, not
    even when it cannot be encoded. *)
Theorem X5_variant_not_found (ctx : option context) (toString : option jsstring)
  (key : jsstring) (v : value) :
  JS.test_upper_start key = true ->
  bn_digits toString = None ->
  (forall entries,
      ctx = Some entries ->
      Forall (fun entry => Strict.includes (snd entry) key = false) entries) ->
  Strict.encodeInputAsBytes ctx (VObject toString [(key, v)])
  = Throw (VariantNotFound key).
Proof.
  intros Hupper Hbn Hctx.
  rewrite (Strict_encode_enum ctx toString key v Hupper Hbn).
  destruct ctx as [entries|]; [|reflexivity].
  rewrite (findVariant_none entries key (Hctx entries eq_refl)). reflexivity.
Qed.

(** [{Deposit: Symbol()}] under a context that lists other names. *)
Lemma X5_variant_not_found_witness :
  let ctx := Some [(js "Kind", [js "Activate"; js "SendFleet"])] in
  JS.test_upper_start (js "Deposit") = true
  /\ bn_digits (Some (js "[object Object]")) = None
  /\ Strict.encodeInputAsBytes ctx (plain [(js "Deposit", VSymbol)])
     = Throw (VariantNotFound (js "Deposit")).
Proof.
  split; [reflexivity|]. split; [reflexivity|].
  apply (X5_variant_not_found _ (Some (js "[object Object]")) (js "Deposit") VSymbol
           eq_refl eq_refl).
  intros entries [= <-]. repeat constructor.
Defined.

(** ** The fallback hash of [getEnumDiscriminant] *)

Lemma ToInt32_shift (a : Z) : exists k, Index.ToInt32 a = a + k * 2 ^ 32.
Proof.
  unfold Index.ToInt32. exists (- ((a + 2 ^ 31) / 2 ^ 32)).
  pose proof (Z.div_mod (a + 2 ^ 31) (2 ^ 32) ltac:(lia)). lia.
Qed.

Lemma ToInt32_add_multiple (a k : Z) :
  Index.ToInt32 (a + k * 2 ^ 32) = Index.ToInt32 a.
Proof.
  unfold Index.ToInt32.
  replace (a + k * 2 ^ 32 + 2 ^ 31) with (a + 2 ^ 31 + k * 2 ^ 32) by lia.
  rewrite Z.mod_add by lia. reflexivity.
Qed.

Lemma ToInt32_range (a : Z) : - 2 ^ 31 <= Index.ToInt32 a < 2 ^ 31.
Proof.
  unfold Index.ToInt32.
  pose proof (Z.mod_pos_bound (a + 2 ^ 31) (2 ^ 32) ltac:(lia)). lia.
Qed.

(** One round multiplies by 31 and adds the code unit, in 32 bits. *)
Lemma hash_step_31 (p c : Z) :
  Index.hash_step (Index.ToInt32 p) c = Index.ToInt32 (31 * p + c).
Proof.
  unfold Index.hash_step. rewrite Z.shiftl_mul_pow2 by lia.
  destruct (ToInt32_shift p) as [k0 H0].
  destruct (ToInt32_shift (Index.ToInt32 p)) as [k1 H1].
  destruct (ToInt32_shift (Index.ToInt32 (Index.ToInt32 p) * 2 ^ 5)) as [k2 H2].
  rewrite H2, H1, H0.
  replace ((p + k0 * 2 ^ 32 + k1 * 2 ^ 32) * 2 ^ 5 + k2 * 2 ^ 32
           - (p + k0 * 2 ^ 32) + c)
    with (31 * p + c + (32 * k0 + 32 * k1 + k2 - k0) * 2 ^ 32) by lia.
  apply ToInt32_add_multiple.
Qed.

Lemma hash_loop_31 (name : jsstring) : forall p,
  fold_left Index.hash_step name (Index.ToInt32 p)
  = Index.ToInt32 (fold_left (fun h c => 31 * h + c) name p).
Proof.
  induction name as [|c name IH]; intros p; simpl; [reflexivity|].
  rewrite hash_step_31. apply IH.
Qed.

(** X6. For a name that is neither in the table nor a member of
    [Object.prototype], [getEnumDiscriminant] is the 31-polynomial of the
    code units, wrapped to a signed 32-bit integer, its absolute value
    taken modulo 256. *)
Theorem X6_fallback_hash (variantName : jsstring) :
  get variantName Index.knownVariants = None ->
  ~ In variantName Index.Object_prototype_names ->
  Index.getEnumDiscriminant variantName
  = Some (Z.abs (Index.ToInt32 (poly31 variantName)) mod 256)
  /\ - 2 ^ 31 <= Index.ToInt32 (poly31 variantName) < 2 ^ 31.
Proof.
  intros Htable Hproto. split; [|apply ToInt32_range].
  unfold Index.getEnumDiscriminant. rewrite Htable.
  destruct (bool_decide_reflect (variantName ∈ Index.Object_prototype_names))
    as [Hin|_].
  - exfalso. apply Hproto, list_elem_of_In, Hin.
  - do 3 f_equal. exact (hash_loop_31 variantName 0).
Qed.

(** The name [Deposit], whose polynomial passes 2^31. *)
Lemma X6_fallback_hash_witness :
  get (js "Deposit") Index.knownVariants = None
  /\ ~ In (js "Deposit") Index.Object_prototype_names
  /\ poly31 (js "Deposit") = 63348649598
  /\ Index.ToInt32 (poly31 (js "Deposit")) = (-1075859842)
  /\ Index.getEnumDiscriminant (js "Deposit") = Some 130.
Proof.
  assert (~ In (js "Deposit") Index.Object_prototype_names) as Hproto.
  { intros H. vm_compute in H. intuition discriminate. }
  split; [reflexivity|]. split; [exact Hproto|].
  split; [reflexivity|]. split; [reflexivity|].
  rewrite (proj1 (X6_fallback_hash (js "Deposit") eq_refl Hproto)). reflexivity.
Defined.

(** ** Values that need no context *)

Lemma sequence_transfer {A} (f g : A -> result bytes) (l : list A) :
  Forall (fun x => forall bs, f x = Ok bs -> g x = Ok bs) l ->
  forall chunks,
    sequence (map f l) = Ok chunks -> sequence (map g l) = Ok chunks.
Proof.
  induction 1 as [|x l Hx _ IH]; intros chunks; simpl; [auto|].
  destruct (f x) as [bs|e] eqn:Ef; simpl; [|discriminate].
  rewrite (Hx bs eq_refl). simpl.
  destruct (sequence (map f l)) as [others|e]; simpl; [|discriminate].
  rewrite (IH others eq_refl). auto.
Qed.

Lemma get_Forall {A} (P : A -> Prop) (key : jsstring)
  (fields : list (jsstring * A)) (a : A) :
  Forall (fun kv => P (snd kv)) fields -> get key fields = Some a -> P a.
Proof.
  induction 1 as [|[k x] fields Hx _ IH]; simpl; [discriminate|].
  destruct (decide (k = key)); [intros [= <-]; exact Hx | exact IH].
Qed.

Lemma enum_shaped_inv (fields : list (jsstring * value)) :
  enum_shaped fields = true ->
  exists key v, fields = [(key, v)] /\ JS.test_upper_start key = true.
Proof.
  destruct fields as [|[k v] [|? ?]]; simpl; try discriminate.
  intros H. exists k, v. auto.
Qed.

(** X7. A value that the file with an enum context encodes without a
    context is encoded to the same bytes under every context, and to the
    same bytes by [src/index.ts]: a context matters for enum-shaped
    objects only, and without one they do not encode. *)
Theorem X7_context_free_values (v : value) :
  forall bs,
    Strict.encodeInputAsBytes None v = Ok bs ->
    (forall ctx, Strict.encodeInputAsBytes ctx v = Ok bs)
    /\ Index.encodeInputAsBytes v = Ok bs.
Proof.
  induction v as [ | | b | x | z | s | | source | elements IH | toString fields IH ]
    using value_nested_ind; intros bs Hnone;
    try (split; [intros ctx|]; exact Hnone).
  - (* array *)
    rewrite Strict_encode_array in Hnone.
    assert (forall ctx, Strict.encodeInputAsBytes ctx (VArray elements) = Ok bs
                        /\ Index.encodeInputAsBytes (VArray elements) = Ok bs) as H.
    { intros ctx. rewrite Strict_encode_array, Index_encode_array.
      destruct (Array_toString elements) as [str|e]; simpl in *; [|discriminate].
      destruct (JS.test_digits str); [auto|].
      destruct (sequence (map (Strict.encodeInputAsBytes None) elements))
        as [chunks|e] eqn:Hseq; simpl in Hnone; [|discriminate].
      rewrite (sequence_transfer (Strict.encodeInputAsBytes None)
                 (Strict.encodeInputAsBytes ctx) elements) with (chunks := chunks);
        [| eapply Forall_impl; [exact IH|]; intros x Hx bs' Hbs'; apply (Hx bs' Hbs')
         | exact Hseq ].
      rewrite (sequence_transfer (Strict.encodeInputAsBytes None)
                 Index.encodeInputAsBytes elements) with (chunks := chunks);
        [| eapply Forall_impl; [exact IH|]; intros x Hx bs' Hbs'; apply (Hx bs' Hbs')
         | exact Hseq ].
      auto. }
    split; [intros ctx; apply (H ctx) | apply (H None)].
  - (* object *)
    rewrite Strict_encode_object in Hnone.
    assert (forall ctx, Strict.encodeInputAsBytes ctx (VObject toString fields) = Ok bs
                        /\ Index.encodeInputAsBytes (VObject toString fields) = Ok bs) as H.
    { intros ctx. rewrite Strict_encode_object, Index_encode_object.
      destruct (bn_digits toString); [auto|].
      assert (enum_shaped fields = false
              -> (let* chunks :=
                    sequence (map (fun kv => Strict.encodeInputAsBytes None (snd kv)) fields) in
                  Ok (concat chunks)) = Ok bs
              -> (if enum_shaped fields then
                    match fields with
                    | (key, v) :: _ =>
                        match
                          match ctx with
                          | Some entries => Strict.findVariant entries key
                          | None => None
                          end
                        with
                        | None => Throw (VariantNotFound key)
                        | Some d =>
                            let* inner := Strict.encodeInputAsBytes ctx v in
                            Ok (d mod 256 :: inner)
                        end
                    | [] => Ok []
                    end
                  else
                    let* chunks :=
                      sequence (map (fun kv => Strict.encodeInputAsBytes ctx (snd kv)) fields) in
                    Ok (concat chunks)) = Ok bs
                 /\ (if enum_shaped fields then
                       match fields with
                       | (key, v) :: _ =>
                           let* inner := Index.encodeInputAsBytes v in
                           Ok (JS.ToUint8 (Index.getEnumDiscriminant key) :: inner)
                       | [] => Ok []
                       end
                     else
                       let* chunks :=
                         sequence (map (fun kv => Index.encodeInputAsBytes (snd kv)) fields) in
                       Ok (concat chunks)) = Ok bs) as Hstruct.
      { intros Hshape Hseq. rewrite Hshape.
        destruct (sequence (map (fun kv => Strict.encodeInputAsBytes None (snd kv)) fields))
          as [chunks|e] eqn:Hchunks; simpl in Hseq; [|discriminate].
        rewrite (sequence_transfer (fun kv => Strict.encodeInputAsBytes None (snd kv))
                   (fun kv => Strict.encodeInputAsBytes ctx (snd kv)) fields)
          with (chunks := chunks);
          [| eapply Forall_impl; [exact IH|]; intros kv Hkv bs' Hbs'; apply (Hkv bs' Hbs')
           | exact Hchunks ].
        rewrite (sequence_transfer (fun kv => Strict.encodeInputAsBytes None (snd kv))
                   (fun kv => Index.encodeInputAsBytes (snd kv)) fields)
          with (chunks := chunks);
          [| eapply Forall_impl; [exact IH|]; intros kv Hkv bs' Hbs'; apply (Hkv bs' Hbs')
           | exact Hchunks ].
        auto. }
      assert (enum_shaped fields = true ->
              (if enum_shaped fields then
                 match fields with
                 | (key, v) :: _ => @Throw bytes (VariantNotFound key)
                 | [] => Ok []
                 end
               else
                 let* chunks :=
                   sequence (map (fun kv => Strict.encodeInputAsBytes None (snd kv)) fields) in
                 Ok (concat chunks)) = Ok bs -> False) as Henum.
      { intros Hshape Hbad. rewrite Hshape in Hbad.
        destruct (enum_shaped_inv fields Hshape) as (key & v & -> & _).
        discriminate. }
      destruct (get (js "elements") fields) as [el|] eqn:Hel.
      - destruct el;
          try (destruct (enum_shaped fields) eqn:Hshape;
               [exfalso; exact (Henum eq_refl Hnone) | exact (Hstruct eq_refl Hnone)]).
        pose proof (get_Forall
                      (fun v => forall bs,
                           Strict.encodeInputAsBytes None v = Ok bs ->
                           (forall ctx, Strict.encodeInputAsBytes ctx v = Ok bs)
                           /\ Index.encodeInputAsBytes v = Ok bs)
                      _ _ _ IH Hel) as Hfield. cbv beta in Hfield.
        destruct (Hfield bs Hnone) as [Hctx Hindex].
        split; [apply Hctx | exact Hindex].
      - destruct (enum_shaped fields) eqn:Hshape;
          [exfalso; exact (Henum eq_refl Hnone) | exact (Hstruct eq_refl Hnone)]. }
    split; [intros ctx; apply (H ctx) | apply (H None)].
Qed.

(** A struct that holds an array and a boolean. *)
Lemma X7_context_free_values_witness :
  let v := plain [(js "a", VArray [VNumber (Number.of_Z 1); VString (js "x")]);
                  (js "b", VBoolean true)] in
  let bs := [0; 0; 0; 0; 0; 0; 0; 1; 120; 1] in
  Strict.encodeInputAsBytes None v = Ok bs
  /\ Strict.encodeInputAsBytes (Some [(js "Kind", [js "Activate"])]) v = Ok bs
  /\ Index.encodeInputAsBytes v = Ok bs.
Proof.
  assert (Strict.encodeInputAsBytes None
            (plain [(js "a", VArray [VNumber (Number.of_Z 1); VString (js "x")]);
                    (js "b", VBoolean true)])
          = Ok [0; 0; 0; 0; 0; 0; 0; 1; 120; 1]) as Hnone by reflexivity.
  destruct (X7_context_free_values _ _ Hnone) as [Hctx Hindex].
  split; [exact Hnone|]. split; [apply Hctx | exact Hindex].
Defined.

(** ** The first input that fails *)

Lemma sequence_first_Throw {A} (rs after : list (result A)) (xs : list A) (e : exn) :
  sequence rs = Ok xs -> sequence (rs ++ Throw e :: after) = Throw e.
Proof.
  intros Hrs. rewrite sequence_app, Hrs. reflexivity.
Qed.

(** X8. [encodeMultipleInputs] returns no bytes when an argument fails:
    the call ends with the exception of the first argument that cannot be
    encoded, whatever follows it. In the file with an enum context this
    holds when the last argument is not shaped like a context. *)
Theorem X8_first_failing_argument (before after : list value) (v : value)
  (chunks : list bytes) (e : exn) :
  (sequence (map Index.encodeInputAsBytes before) = Ok chunks ->
   Index.encodeInputAsBytes v = Throw e ->
   Index.encodeMultipleInputs (before ++ v :: after) = Throw e)
  /\ (last_is_value (before ++ v :: after) ->
      sequence (map (Strict.encodeInputAsBytes None) before) = Ok chunks ->
      Strict.encodeInputAsBytes None v = Throw e ->
      Strict.encodeMultipleInputs (before ++ v :: after) = Throw e).
Proof.
  split.
  - intros Hbefore Hv. rewrite Index_encodeMultipleInputs_concat.
    rewrite map_app. cbn [map]. rewrite Hv.
    rewrite (sequence_first_Throw _ _ chunks e Hbefore). reflexivity.
  - intros Hlast Hbefore Hv.
    rewrite (Strict_encodeMultipleInputs_concat _ Hlast).
    rewrite map_app. cbn [map]. rewrite Hv.
    rewrite (sequence_first_Throw _ _ chunks e Hbefore). reflexivity.
Qed.

(** A function between two values that encode. *)
Lemma X8_first_failing_argument_witness :
  sequence (map Index.encodeInputAsBytes [VBoolean true]) = Ok [[1]]
  /\ Index.encodeInputAsBytes (VFunction (js "f")) = Throw (CannotEncode (js "function"))
  /\ Index.encodeMultipleInputs ([VBoolean true] ++ VFunction (js "f") :: [VSymbol])
     = Throw (CannotEncode (js "function")).
Proof.
  split; [reflexivity|]. split; [reflexivity|].
  exact (proj1 (X8_first_failing_argument [VBoolean true] [VSymbol]
                  (VFunction (js "f")) [[1]] (CannotEncode (js "function")))
               eq_refl eq_refl).
Defined.

(** ** More of the Hasher *)

(** X9. A successful [update] returns the instance it was called on and
    appends to it: [getBytes()] afterwards is what it was before followed
    by the encoding of the input (in the file with an enum context, the
    encoding under the context of the instance). *)
Theorem X9_update_appends :
  (forall (h : heap Index.HasherFields) (this : loc) (input : value) (was bs : bytes),
      live_index h this ->
      fst (Index.getBytes this h) = Ok was ->
      Index.encodeInputAsBytes input = Ok bs ->
      exists h',
        Index.update this input h = (Ok this, h')
        /\ live_index h' this
        /\ fst (Index.getBytes this h') = Ok (was ++ bs))
  /\ (forall (h : heap Strict.HasherFields) (this : loc) (fields : Strict.HasherFields)
             (input : value) (was bs : bytes),
         instances h !! this = Some fields ->
         live_strict h this ->
         fst (Strict.getBytes this h) = Ok was ->
         Strict.encodeInputAsBytes (Strict.enumContext fields) input = Ok bs ->
         exists h',
           Strict.update this input h = (Ok this, h')
           /\ live_strict h' this
           /\ instances h' !! this = Some fields
           /\ fst (Strict.getBytes this h') = Ok (was ++ bs)).
Proof.
  split.
  - intros h this input was bs (fields & chunks & Hi & Ha) Hwas Hbs.
    rewrite (Index_getBytes_concat h this fields chunks Hi Ha) in Hwas.
    injection Hwas as <-.
    rewrite (Index_update_Ok h this fields chunks input bs Hi Ha Hbs).
    set (h' := Heap (<[Index.buffer fields := chunks ++ [bs]]> (arrays h)) (instances h)).
    assert (arrays h' !! Index.buffer fields = Some (chunks ++ [bs])) as Ha'
      by apply lookup_insert_eq.
    exists h'. split; [reflexivity|]. split.
    + exists fields, (chunks ++ [bs]). auto.
    + rewrite (Index_getBytes_concat h' this fields _ Hi Ha').
      rewrite concat_app. simpl. rewrite app_nil_r. reflexivity.
  - intros h this fields input was bs Hi (fields' & chunks & Hi' & Ha) Hwas Hbs.
    rewrite Hi in Hi'. injection Hi' as <-.
    rewrite (Strict_getBytes_concat h this fields chunks Hi Ha) in Hwas.
    injection Hwas as <-.
    rewrite (Strict_update_Ok h this fields chunks input bs Hi Ha Hbs).
    set (h' := Heap (<[Strict.buffer fields := chunks ++ [bs]]> (arrays h)) (instances h)).
    assert (arrays h' !! Strict.buffer fields = Some (chunks ++ [bs])) as Ha'
      by apply lookup_insert_eq.
    exists h'. split; [reflexivity|]. split; [|split; [exact Hi|]].
    + exists fields, (chunks ++ [bs]). auto.
    + rewrite (Strict_getBytes_concat h' this fields _ Hi Ha').
      rewrite concat_app. simpl. rewrite app_nil_r. reflexivity.
Qed.

(** [true] appended to a Hasher that holds ["hi"]. *)
Lemma X9_update_appends_witness :
  let h := snd (Index.update 1%positive (VString (js "hi"))
                  (snd (Index.new_Hasher empty_heap))) in
  live_index h 1%positive
  /\ fst (Index.getBytes 1%positive h) = Ok [104; 105]
  /\ Index.encodeInputAsBytes (VBoolean true) = Ok [1]
  /\ exists h',
       Index.update 1%positive (VBoolean true) h = (Ok 1%positive, h')
       /\ fst (Index.getBytes 1%positive h') = Ok ([104; 105] ++ [1]).
Proof.
  assert (live_index
            (snd (Index.update 1%positive (VString (js "hi"))
                    (snd (Index.new_Hasher empty_heap)))) 1%positive) as Hlive.
  { exists {| Index.buffer := 1%positive |}, [[104; 105]].
    split; vm_compute; reflexivity. }
  split; [exact Hlive|]. split; [reflexivity|]. split; [reflexivity|].
  destruct (proj1 X9_update_appends _ 1%positive (VBoolean true) [104; 105] [1]
              Hlive eq_refl eq_refl) as (h' & Hup & _ & Hbytes).
  exists h'. auto.
Defined.

(** X10. [digest()] and [finalize()] return [sha256] of exactly the bytes
    [getBytes()] returns, and neither of the three changes anything: the
    buffer is still there, and a second call gives the same answer. *)
Theorem X10_digest_of_bytes (sha256 : bytes -> jsstring) :
  (forall (h : heap Index.HasherFields) (this : loc),
      live_index h this ->
      exists bs,
        Index.getBytes this h = (Ok bs, h)
        /\ Index.digest sha256 this h = (Ok (sha256 bs), h))
  /\ (forall (h : heap Strict.HasherFields) (this : loc),
         live_strict h this ->
         exists bs,
           Strict.getBytes this h = (Ok bs, h)
           /\ Strict.finalize sha256 this h = (Ok (sha256 bs), h)).
Proof.
  split; intros h this (fields & chunks & Hi & Ha); exists (concat chunks).
  - rewrite (Index_getBytes_concat h this fields chunks Hi Ha).
    rewrite (Index_digest_concat sha256 h this fields chunks Hi Ha). auto.
  - rewrite (Strict_getBytes_concat h this fields chunks Hi Ha).
    rewrite (Strict_finalize_concat sha256 h this fields chunks Hi Ha). auto.
Qed.

(** A Hasher with a context that holds one enum. *)
Lemma X10_digest_of_bytes_witness :
  let ctx := Some [(js "Kind", [js "Activate"; js "SendFleet"])] in
  let h := snd (Strict.update 1%positive (plain [(js "SendFleet", VBoolean true)])
                  (snd (Strict.new_Hasher ctx empty_heap))) in
  live_strict h 1%positive
  /\ exists bs,
       Strict.getBytes 1%positive h = (Ok bs, h)
       /\ Strict.finalize (fun b => b) 1%positive h = (Ok bs, h).
Proof.
  assert (live_strict
            (snd (Strict.update 1%positive (plain [(js "SendFleet", VBoolean true)])
                    (snd (Strict.new_Hasher
                            (Some [(js "Kind", [js "Activate"; js "SendFleet"])])
                            empty_heap)))) 1%positive) as Hlive.
  { eexists {| Strict.buffer := 1%positive; Strict.enumContext := _ |}, [[1; 1]].
    split; vm_compute; reflexivity. }
  split; [exact Hlive|].
  exact (proj2 (X10_digest_of_bytes (fun b => b)) _ _ Hlive).
Defined.

Lemma Index_reset_spec (h : heap Index.HasherFields) this fields :
  instances h !! this = Some fields ->
  let b := fresh (dom (arrays h)) in
  Index.reset this h
  = (Ok this,
     Heap (<[b := []]> (arrays h)) (<[this := {| Index.buffer := b |}]> (instances h))).
Proof.
  intros Hi b. unfold Index.reset, bindM, alloc_array, store_instance, ret. simpl.
  rewrite Hi. reflexivity.
Qed.

Lemma Strict_reset_spec (h : heap Strict.HasherFields) this fields :
  instances h !! this = Some fields ->
  let b := fresh (dom (arrays h)) in
  Strict.reset this h
  = (Ok this,
     Heap (<[b := []]> (arrays h))
          (<[this := {| Strict.buffer := b;
                        Strict.enumContext := Strict.enumContext fields |}]>
             (instances h))).
Proof.
  intros Hi b.
  unfold Strict.reset, bindM, alloc_array, load_instance, store_instance, ret. simpl.
  rewrite Hi. simpl. rewrite Hi. reflexivity.
Qed.

(** X11. [reset()] returns the instance with an empty buffer, whatever it
    held: [getBytes()] is empty afterwards. The buffer is a new array, so
    every other instance, a clone made earlier included, keeps its bytes;
    in the file with an enum context the context stays. *)
Theorem X11_reset_empties :
  (forall (h : heap Index.HasherFields) (this : loc),
      live_index h this ->
      exists h',
        Index.reset this h = (Ok this, h')
        /\ live_index h' this
        /\ fst (Index.getBytes this h') = Ok []
        /\ forall other,
             other <> this -> live_index h other ->
             fst (Index.getBytes other h') = fst (Index.getBytes other h))
  /\ (forall (h : heap Strict.HasherFields) (this : loc) (fields : Strict.HasherFields),
         instances h !! this = Some fields ->
         live_strict h this ->
         exists h' fields',
           Strict.reset this h = (Ok this, h')
           /\ instances h' !! this = Some fields'
           /\ Strict.enumContext fields' = Strict.enumContext fields
           /\ fst (Strict.getBytes this h') = Ok []
           /\ forall other,
                other <> this -> live_strict h other ->
                fst (Strict.getBytes other h') = fst (Strict.getBytes other h)).
Proof.
  split.
  - intros h this (fields & chunks & Hi & Ha).
    rewrite (Index_reset_spec h this fields Hi). cbv zeta.
    set (b := fresh (dom (arrays h))).
    set (h' := Heap _ _).
    assert (instances h' !! this = Some {| Index.buffer := b |}) as Hi'
      by apply lookup_insert_eq.
    assert (arrays h' !! b = Some []) as Ha' by apply lookup_insert_eq.
    exists h'. split; [reflexivity|]. split; [|split].
    + exists {| Index.buffer := b |}, []. auto.
    + rewrite (Index_getBytes_concat h' this _ [] Hi' Ha'). reflexivity.
    + intros other Hne (fo & co & Hio & Hao).
      apply (Index_getBytes_ext h h' other fo Hio).
      * unfold h'. simpl. rewrite lookup_insert_ne by congruence. exact Hio.
      * unfold h'. simpl. apply lookup_insert_ne.
        exact (fresh_ne _ _ _ Hao).
  - intros h this fields Hi (fields0 & chunks & Hi0 & Ha).
    rewrite (Strict_reset_spec h this fields Hi). cbv zeta.
    set (b := fresh (dom (arrays h))).
    set (f' := {| Strict.buffer := b; Strict.enumContext := Strict.enumContext fields |}).
    set (h' := Heap _ _).
    assert (instances h' !! this = Some f') as Hi' by apply lookup_insert_eq.
    assert (arrays h' !! b = Some []) as Ha' by apply lookup_insert_eq.
    exists h', f'. split; [reflexivity|]. split; [exact Hi'|].
    split; [reflexivity|]. split.
    + rewrite (Strict_getBytes_concat h' this f' [] Hi' Ha'). reflexivity.
    + intros other Hne (fo & co & Hio & Hao).
      apply (Strict_getBytes_ext h h' other fo Hio).
      * unfold h'. simpl. rewrite lookup_insert_ne by congruence. exact Hio.
      * unfold h'. simpl. apply lookup_insert_ne.
        exact (fresh_ne _ _ _ Hao).
Qed.

(** A Hasher that holds ["hi"] is reset. *)
Lemma X11_reset_empties_witness :
  let h := snd (Index.update 1%positive (VString (js "hi"))
                  (snd (Index.new_Hasher empty_heap))) in
  live_index h 1%positive
  /\ fst (Index.getBytes 1%positive h) = Ok [104; 105]
  /\ exists h',
       Index.reset 1%positive h = (Ok 1%positive, h')
       /\ fst (Index.getBytes 1%positive h') = Ok [].
Proof.
  assert (live_index
            (snd (Index.update 1%positive (VString (js "hi"))
                    (snd (Index.new_Hasher empty_heap)))) 1%positive) as Hlive.
  { exists {| Index.buffer := 1%positive |}, [[104; 105]].
    split; vm_compute; reflexivity. }
  split; [exact Hlive|]. split; [reflexivity|].
  destruct (proj1 X11_reset_empties _ _ Hlive) as (h' & Hreset & _ & Hbytes & _).
  exists h'. auto.
Defined.

Lemma Index_updates_until_Throw (before : list value) :
  forall (h : heap Index.HasherFields) this fields chunks added after v e,
  instances h !! this = Some fields ->
  arrays h !! Index.buffer fields = Some chunks ->
  sequence (map Index.encodeInputAsBytes before) = Ok added ->
  Index.encodeInputAsBytes v = Throw e ->
  exists h',
    updates_index this (before ++ v :: after) h = (Throw e, h')
    /\ instances h' !! this = Some fields
    /\ arrays h' !! Index.buffer fields = Some (chunks ++ added).
Proof.
  induction before as [|x before IH];
    intros h this fields chunks added after v e Hi Ha Hseq Hv.
  - simpl in Hseq. injection Hseq as <-. exists h.
    cbn [app updates_index]. unfold bindM.
    rewrite (Index_update_Throw h this v e Hv), app_nil_r. auto.
  - cbn [map sequence] in Hseq.
    destruct (Index.encodeInputAsBytes x) as [bx|ex] eqn:Ex; simpl in Hseq; [|discriminate].
    destruct (sequence (map Index.encodeInputAsBytes before)) as [more|e'] eqn:Hmore;
      simpl in Hseq; [|discriminate].
    injection Hseq as <-.
    cbn [app updates_index]. unfold bindM.
    rewrite (Index_update_Ok h this fields chunks x bx Hi Ha Ex).
    destruct (IH (Heap (<[Index.buffer fields := chunks ++ [bx]]> (arrays h)) (instances h))
                 this fields (chunks ++ [bx]) more after v e Hi
                 (lookup_insert_eq _ _ _) eq_refl Hv) as (h' & Hrun & Hi' & Ha').
    exists h'. rewrite <- app_assoc in Ha'. auto.
Qed.

(** X12. A chain of updates stops at the first input that cannot be
    encoded, and the inputs before it stay in the buffer: after the
    exception [getBytes()] returns the bytes the Hasher had followed by
    the encodings of the inputs that came before the failing one. *)
Theorem X12_failed_chain_keeps_prefix (h : heap Index.HasherFields) (this : loc)
  (before after : list value) (v : value) (was : bytes) (added : list bytes)
  (e : exn) :
  live_index h this ->
  fst (Index.getBytes this h) = Ok was ->
  sequence (map Index.encodeInputAsBytes before) = Ok added ->
  Index.encodeInputAsBytes v = Throw e ->
  exists h',
    updates_index this (before ++ v :: after) h = (Throw e, h')
    /\ fst (Index.getBytes this h') = Ok (was ++ concat added).
Proof.
  intros (fields & chunks & Hi & Ha) Hwas Hseq Hv.
  rewrite (Index_getBytes_concat h this fields chunks Hi Ha) in Hwas.
  injection Hwas as <-.
  destruct (Index_updates_until_Throw before h this fields chunks added after v e
              Hi Ha Hseq Hv) as (h' & Hrun & Hi' & Ha').
  exists h'. split; [exact Hrun|].
  rewrite (Index_getBytes_concat h' this fields _ Hi' Ha').
  rewrite concat_app. reflexivity.
Qed.

(** [true], then a Symbol, then ["hi"], on a new Hasher. *)
Lemma X12_failed_chain_keeps_prefix_witness :
  let h := snd (Index.new_Hasher empty_heap) in
  live_index h 1%positive
  /\ fst (Index.getBytes 1%positive h) = Ok []
  /\ exists h',
       updates_index 1%positive ([VBoolean true] ++ VSymbol :: [VString (js "hi")]) h
       = (Throw (CannotEncode (js "symbol")), h')
       /\ fst (Index.getBytes 1%positive h') = Ok ([] ++ concat [[1]]).
Proof.
  assert (live_index (snd (Index.new_Hasher empty_heap)) 1%positive) as Hlive.
  { exists {| Index.buffer := 1%positive |}, []. split; vm_compute; reflexivity. }
  split; [exact Hlive|]. split; [reflexivity|].
  exact (X12_failed_chain_keeps_prefix _ 1%positive [VBoolean true] [VString (js "hi")]
           VSymbol [] [[1]] (CannotEncode (js "symbol")) Hlive eq_refl eq_refl eq_refl).
Defined.

(** X13. In the file with an enum context, a Hasher made with a context
    and updated with [v1 .. vn] returns from [getBytes()] what
    [encodeMultipleInputs(v1, ..., vn, context)] returns, the same bytes
    or the same first exception: the trailing object of arrays of strings
    is the context and adds no bytes. *)
Theorem X13_hasher_with_context (ctx : context) (inputs : list value)
  (h : heap Strict.HasherFields) :
  Strict.isEnumContext (context_value ctx) = true
  /\ Strict.asContext (context_value ctx) = ctx
  /\ fst (run_strict (Some ctx) inputs h)
     = Strict.encodeMultipleInputs (inputs ++ [context_value ctx]).
Proof.
  split; [apply isEnumContext_context_value|].
  split; [apply asContext_context_value|].
  rewrite Strict_run_spec.
  rewrite (Strict_encodeMultipleInputs_context inputs (context_value ctx)
             (isEnumContext_context_value ctx)).
  rewrite asContext_context_value. reflexivity.
Qed.

(** ** Hashes that are not hexadecimal *)

(** A pair that starts with something [parseInt] cannot read. *)
Lemma parseInt_not_hex (c1 c2 : Z) :
  JS.is_radix_digit 16 c1 = false ->
  JS.is_white_space c1 = false ->
  c1 <> 0x2D -> c1 <> 0x2B ->
  JS.parseInt [c1; c2] 16 = None.
Proof.
  intros Hnd Hws Hminus Hplus. unfold JS.parseInt.
  cbn [JS.drop_while]. rewrite Hws.
  destruct (Z.eqb_spec c1 0x2D); [contradiction|].
  destruct (Z.eqb_spec c1 0x2B); [contradiction|].
  destruct (Z.eqb_spec c1 0x30) as [->|_]; [vm_compute in Hnd; discriminate|].
  cbn. rewrite Hnd. reflexivity.
Qed.

Lemma hex_chars_plain :
  forallb (fun c => negb (JS.is_white_space c) && negb (c =? 0x2D) && negb (c =? 0x2B))
          hex_chars = true.
Proof. vm_compute. reflexivity. Qed.

(** A hexadecimal digit followed by something else: the digit alone. *)
Lemma parseInt_one_hex (c1 c2 d1 : Z) :
  JS.radix_digit 16 c1 = Some d1 ->
  JS.is_radix_digit 16 c2 = false ->
  ~ (c1 = 0x30 /\ (c2 = 0x78 \/ c2 = 0x58)) ->
  JS.parseInt [c1; c2] 16 = Some d1 /\ 0 <= d1 < 16.
Proof.
  intros Hd Hnd Hprefix.
  pose proof (radix16_hex_chars c1 d1 Hd) as Hin.
  pose proof hex_chars_plain as T. rewrite forallb_forall in T.
  specialize (T c1 Hin).
  apply andb_prop in T as [T Hplus]. apply andb_prop in T as [Hws Hminus].
  apply negb_true_iff in Hws, Hminus, Hplus.
  assert (0 <= d1 < 16) as Hrange.
  { unfold JS.radix_digit in Hd. destruct (JS.digit_val c1) as [d|] eqn:Edv; [|discriminate].
    destruct (Z.ltb_spec d 16); [|discriminate]. injection Hd as <-.
    unfold JS.digit_val in Edv.
    repeat match type of Edv with
           | (if ?b then _ else _) = _ => destruct b eqn:?; [injection Edv as <- | ]
           end; try discriminate; lia. }
  split; [|exact Hrange].
  unfold JS.parseInt. cbn [JS.drop_while]. rewrite Hws, Hminus, Hplus.
  assert (((16 =? 0) || (16 =? 16)) && (c1 =? 0x30) && ((c2 =? 0x78) || (c2 =? 0x58))
          = false) as ->.
  { destruct (Z.eqb_spec c1 0x30), (Z.eqb_spec c2 0x78), (Z.eqb_spec c2 0x58);
      simpl; try reflexivity; exfalso; apply Hprefix; auto. }
  change (if 16 =? 0 then 10 else 16) with 16.
  cbn [JS.take_while]. unfold JS.is_radix_digit at 1. rewrite Hd, Hnd.
  cbn [JS.parse_digits]. rewrite Hd. f_equal. lia.
Qed.

(** X14. A 66-character [0x] string is never refused: where a pair of the
    text is not two hexadecimal digits the byte is what [parseInt] makes
    of it. A pair that starts with a character that is no digit, no white
    space and no sign gives the byte 0; a digit followed by a character
    that is no digit gives the value of the one digit. *)
Theorem X14_malformed_hash (s : jsstring) (i : nat) (c1 c2 : Z) :
  JS.startsWith s (js "0x") = true ->
  length s = 66%nat ->
  (i < 32)%nat ->
  JS.slice s 2 !! (2 * i)%nat = Some c1 ->
  JS.slice s 2 !! (2 * i + 1)%nat = Some c2 ->
  exists bs,
    Index.encodeInputAsBytes (VString s) = Ok bs
    /\ length bs = 32%nat
    /\ (JS.is_radix_digit 16 c1 = false ->
        JS.is_white_space c1 = false ->
        c1 <> 0x2D -> c1 <> 0x2B ->
        bs !! i = Some 0)
    /\ (forall d1,
           JS.radix_digit 16 c1 = Some d1 ->
           JS.is_radix_digit 16 c2 = false ->
           ~ (c1 = 0x30 /\ (c2 = 0x78 \/ c2 = 0x58)) ->
           bs !! i = Some d1).
Proof.
  intros Hprefix Hlen Hi H1 H2. exists (decodeB256 s).
  split.
  { cbn [Index.encodeInputAsBytes]. unfold encodeString.
    rewrite Hprefix, Hlen. reflexivity. }
  split; [apply decodeB256_length|].
  assert (decodeB256 s !! i = Some (JS.ToUint8 (JS.parseInt [c1; c2] 16))) as Hbyte.
  { unfold decodeB256. rewrite list_lookup_fmap, (lookup_seq_lt 0 32 i Hi).
    unfold fmap, option_fmap, option_map. cbv beta. rewrite Nat.add_0_l.
    rewrite (substr_pair _ i c1 c2 H1 H2). reflexivity. }
  split.
  - intros Hnd Hws Hminus Hplus.
    rewrite Hbyte, (parseInt_not_hex c1 c2 Hnd Hws Hminus Hplus). reflexivity.
  - intros d1 Hd Hnd Hnot.
    destruct (parseInt_one_hex c1 c2 d1 Hd Hnd Hnot) as [Hparse Hrange].
    rewrite Hbyte, Hparse. simpl. rewrite Z.mod_small by lia. reflexivity.
Qed.

(** A hash whose text starts with [zz] and [1g]. *)
Lemma X14_malformed_hash_witness :
  let s := js "0xzz1gabababababababababababababababababababababababababababababab" in
  JS.startsWith s (js "0x") = true
  /\ length s = 66%nat
  /\ (exists bs,
        Index.encodeInputAsBytes (VString s) = Ok bs /\ bs !! 0%nat = Some 0)
  /\ (exists bs,
        Index.encodeInputAsBytes (VString s) = Ok bs /\ bs !! 1%nat = Some 1).
Proof.
  split; [reflexivity|]. split; [reflexivity|]. split.
  - destruct (X14_malformed_hash (js "0xzz1gabababababababababababababababababababababababababababababab") 0 0x7A 0x7A
                eq_refl eq_refl ltac:(lia) eq_refl eq_refl)
      as (bs & Henc & _ & Hzero & _).
    exists bs. split; [exact Henc|].
    apply Hzero; [reflexivity | reflexivity | discriminate | discriminate].
  - destruct (X14_malformed_hash (js "0xzz1gabababababababababababababababababababababababababababababab") 1 0x31 0x67
                eq_refl eq_refl ltac:(lia) eq_refl eq_refl)
      as (bs & Henc & _ & _ & Hone).
    exists bs. split; [exact Henc|].
    apply (Hone 1); [reflexivity | reflexivity |].
    intros [H _]. discriminate.
Defined.

(** ** Different shapes, same bytes *)

(** X15. The format keeps no trace of the container: a struct of two or
    more fields (or none), the array of its field values and the same
    values passed one by one to [encodeMultipleInputs] all give the same
    bytes, or the same exception. *)
Theorem X15_struct_array_arguments (toString : option jsstring)
  (fields : list (jsstring * value)) (str : jsstring) :
  length fields <> 1%nat ->
  bn_digits toString = None ->
  (forall elements, get (js "elements") fields <> Some (VArray elements)) ->
  Array_toString (map snd fields) = Ok str ->
  Index.encodeInputAsBytes (VObject toString fields)
    = Index.encodeInputAsBytes (VArray (map snd fields))
  /\ Index.encodeInputAsBytes (VArray (map snd fields))
     = Index.encodeMultipleInputs (map snd fields).
Proof.
  intros Hlen Hbn Hel Hstr.
  assert (enum_shaped fields = false) as Hshape.
  { destruct fields as [|[k v] [|? ?]]; simpl in *; try reflexivity. lia. }
  assert (Index.encodeInputAsBytes (VArray (map snd fields))
          = Index.encodeMultipleInputs (map snd fields)) as Harray.
  { rewrite Index_encode_array, Index_encodeMultipleInputs_concat, Hstr. cbn [bind].
    rewrite (Array_toString_not_digits (map snd fields) str); [reflexivity | | exact Hstr].
    rewrite length_map. exact Hlen. }
  split; [|exact Harray].
  rewrite Harray, Index_encode_object, Hbn, Hshape, Index_encodeMultipleInputs_concat.
  rewrite map_map.
  destruct (get (js "elements") fields) as [[]|]; try reflexivity.
  exfalso. exact (Hel _ eq_refl).
Qed.

(** [{a: 5, b: "x"}], [[5, "x"]] and the arguments [5, "x"]. *)
Lemma X15_struct_array_arguments_witness :
  let fields := [(js "a", VNumber (Number.of_Z 5)); (js "b", VString (js "x"))] in
  length fields <> 1%nat
  /\ Array_toString (map snd fields) = Ok (js "5,x")
  /\ Index.encodeInputAsBytes (plain fields)
     = Index.encodeInputAsBytes (VArray [VNumber (Number.of_Z 5); VString (js "x")])
  /\ Index.encodeInputAsBytes (VArray [VNumber (Number.of_Z 5); VString (js "x")])
     = Index.encodeMultipleInputs [VNumber (Number.of_Z 5); VString (js "x")].
Proof.
  assert (length [(js "a", VNumber (Number.of_Z 5)); (js "b", VString (js "x"))]
          <> 1%nat) as Hlen by (simpl; lia).
  assert (forall elements,
             get (js "elements")
               [(js "a", VNumber (Number.of_Z 5)); (js "b", VString (js "x"))]
             <> Some (VArray elements)) as Hel
    by (intros elements H; vm_compute in H; discriminate).
  split; [exact Hlen|]. split; [reflexivity|].
  exact (X15_struct_array_arguments (Some (js "[object Object]"))
           [(js "a", VNumber (Number.of_Z 5)); (js "b", VString (js "x"))]
           (js "5,x") Hlen eq_refl Hel eq_refl).
Defined.
